(** * Mamba-Graph: the repository scanner, scorer and payload budgeter

    A shallow embedding of [backend/main.py]: [APIKeyManager] ([get_key],
    [has_key]), [ComplexityAnalyzer.score], [RepositoryProcessor]
    ([_extract_imports], [_resolve_import], [generate_tree],
    [scan_and_read]), the event stream of [NemotronOrchestrator] and the
    endpoints [preview], [analyze], [query], [mermaid], [security_scan],
    [onboarding_guide] and [cuda_analysis], followed by the properties of the
    specification and further properties of the code.

    Conventions of the embedding.
    - A Python [str] is a list of Unicode code points ([pystr]); [len] is the
      number of code points, as an integer of [Z].
    - A Python [float] is an exact rational of [Q]: the arithmetic of
      [ComplexityAnalyzer.score] is carried out without the rounding of
      IEEE-754 doubles, and [round(x, 1)] rounds half to even on the exact
      value.
    - Library services that the code calls but does not define (Unicode
      lower-casing, the [re] engine, the iteration order of a [set],
      [math.log10], [json.dumps], [datetime.isoformat]) are the fields of a
      [Runtime]; every definition below takes the runtime as an argument.
    - The file system read by [os.walk], [Path.stat] and [open] is a tree
      [Dir] whose entries come in the order the operating system lists them.
    - Paths use the POSIX separator. *)

From Stdlib Require Import String Ascii DecimalString.
From Stdlib Require Import ZArith QArith Qminmax Qround Lqa Bool Lia.
From Stdlib Require Import List Permutation Sorting.Sorted.
Import ListNotations.

Local Open Scope Z_scope.

(** ** Python strings *)

Definition char := N.
Definition pystr := list char.

(** An ASCII literal as a Python string. *)
Definition py (s : string) : pystr := map N_of_ascii (list_ascii_of_string s).

(** [len(x)] *)
Definition len {A : Type} (l : list A) : Z := Z.of_nat (length l).

Definition char_eqb (a b : char) : bool := N.eqb a b.

Fixpoint str_eqb (a b : pystr) : bool :=
  match a, b with
  | [], [] => true
  | x :: a', y :: b' => char_eqb x y && str_eqb a' b'
  | _, _ => false
  end.

(** [x in xs] for a list, a set or the keys of a dict of strings *)
Definition str_in (x : pystr) (xs : list pystr) : bool := existsb (str_eqb x) xs.

(** [s.startswith(p)] *)
Fixpoint startswith (p s : pystr) : bool :=
  match p, s with
  | [], _ => true
  | x :: p', y :: s' => char_eqb x y && startswith p' s'
  | _ :: _, [] => false
  end.

(** [s.endswith(p)] *)
Definition endswith (p s : pystr) : bool := startswith (rev p) (rev s).

(** [sub in s] *)
Fixpoint contains (sub s : pystr) : bool :=
  startswith sub s ||
  match s with
  | [] => false
  | _ :: s' => contains sub s'
  end.

(** [s.split(c)] for a one-character separator: never the empty list. *)
Fixpoint split (c : char) (s : pystr) : list pystr :=
  match s with
  | [] => [[]]
  | x :: s' =>
      if char_eqb x c then [] :: split c s'
      else match split c s' with
           | h :: r => (x :: h) :: r
           | [] => [[x]]
           end
  end.

(** [sep.join(parts)] *)
Fixpoint join (sep : pystr) (parts : list pystr) : pystr :=
  match parts with
  | [] => []
  | [p] => p
  | p :: rest => p ++ sep ++ join sep rest
  end.

(** [s.replace(old, new)] for a one-character [old] *)
Definition replace_char (old : char) (new : pystr) (s : pystr) : pystr :=
  flat_map (fun x => if char_eqb x old then new else [x]) s.

(** [s.replace(old, new)] for a non-empty [old]: the non-overlapping
    occurrences, left to right.  [skip] counts the characters of an
    occurrence that are still to be dropped. *)
Fixpoint replace_from (old new : pystr) (skip : nat) (s : pystr) : pystr :=
  match s with
  | [] => []
  | x :: s' =>
      match skip with
      | S k => replace_from old new k s'
      | O => if startswith old s
             then new ++ replace_from old new (length old - 1) s'
             else x :: replace_from old new O s'
      end
  end.

Definition replace (old new s : pystr) : pystr :=
  match old with
  | [] => new ++ flat_map (fun x => x :: new) s
  | _ :: _ => replace_from old new O s
  end.

(** [s.count(c)] for a one-character [c] *)
Definition count_char (c : char) (s : pystr) : Z :=
  len (filter (fun x => char_eqb x c) s).

(** [s[:n]] for [n >= 0] *)
Definition take {A : Type} (n : Z) (l : list A) : list A := firstn (Z.to_nat n) l.

(** [l[-n:]] for a positive constant [n] *)
Definition last_n {A : Type} (n : nat) (l : list A) : list A :=
  skipn (length l - n) l.

(** [str.isspace] on one code point *)
Definition is_space (c : char) : bool :=
  ((9 <=? c) && (c <=? 13) || (28 <=? c) && (c <=? 32) ||
   (c =? 133) || (c =? 160) || (c =? 5760) ||
   (8192 <=? c) && (c <=? 8202) || (c =? 8232) || (c =? 8233) ||
   (c =? 8239) || (c =? 8287) || (c =? 12288))%N.

(** [s.lstrip()] *)
Fixpoint lstrip (s : pystr) : pystr :=
  match s with
  | [] => []
  | x :: s' => if is_space x then lstrip s' else s
  end.

(** The truth value of [s.strip()]: some character is not white space. *)
Definition strip_nonempty (s : pystr) : bool := negb (forallb is_space s).

(** [str(n)] for an [int] *)
Definition str_of_Z (n : Z) : pystr := py (NilEmpty.string_of_int (Z.to_int n)).

Definition NL : char := 10%N.
Definition SEP : char := 47%N.
(** [os.sep] *)
Definition os_sep : pystr := [SEP].

(** [dict.get(key, default)] and [key in dict] on a literal table *)
Fixpoint assoc {V : Type} (k : pystr) (tbl : list (pystr * V)) : option V :=
  match tbl with
  | [] => None
  | (k', v) :: rest => if str_eqb k k' then Some v else assoc k rest
  end.

Definition dict_get {V : Type} (tbl : list (pystr * V)) (k : pystr) (default : V) : V :=
  match assoc k tbl with
  | Some v => v
  | None => default
  end.

(** ** Python floats, as exact rationals *)

(** Round half to even, to the nearest integer. *)
Definition round_half_even (q : Q) : Z :=
  let f := Qfloor q in
  match Qcompare (q - inject_Z f)%Q (1 # 2)%Q with
  | Lt => f
  | Gt => f + 1
  | Eq => if Z.even f then f else f + 1
  end.

(** [round(x, 1)] *)
Definition round1 (x : Q) : Q := (round_half_even (x * 10)%Q # 10)%Q.

(** The text of a float with one decimal, as an f-string prints the values
    that [round1] returns. *)
Definition float_str (x : Q) : pystr :=
  let k := round_half_even (x * 10)%Q in
  (if k <? 0 then py "-" else []) ++
  str_of_Z (Z.abs k / 10) ++ py "." ++ str_of_Z (Z.abs k mod 10).

(** ** The services of the Python runtime *)

(** The regular expressions of [IMPORT_PATTERNS], one constructor per
    distinct pattern text:
    - [RE_import]      [^import\s+([\w.]+)]           (.py, .java)
    - [RE_from]        [^from\s+([\w.]+)\s+import]    (.py)
    - [RE_esm]         [import ... from '...']        (.js .ts .jsx .tsx)
    - [RE_require]     [require('...')]               (.js .ts .jsx .tsx)
    - [RE_go]          a quoted path                  (.go)
    - [RE_use]         [^use\s+([\w:]+)]              (.rs)
    - [RE_include]     [#include <...>]               (.c .cpp .h .cu) *)
Inductive import_pattern :=
  RE_import | RE_from | RE_esm | RE_require | RE_go | RE_use | RE_include.

Record DepLink := {
  source : pystr;
  target : pystr;
  type_ : pystr;
  raw : pystr
}.

Record Runtime := {
  (** [str.lower] *)
  str_lower : pystr -> pystr;
  (** [re.findall(pattern, content, re.MULTILINE)]: the captured groups *)
  re_findall : import_pattern -> pystr -> list pystr;
  (** [list(set(xs))]: the elements of [xs] without repetition, in the
      iteration order of the set, which follows the string hashes of the
      running interpreter *)
  list_of_set : list pystr -> list pystr;
  (** [math.log10] of an [int] *)
  math_log10 : Z -> Q;
  (** [json.dumps] of the language histogram *)
  json_dumps_languages : list (pystr * Z) -> pystr;
  (** [json.dumps(dep_links, indent=2)] *)
  json_dumps_links : list DepLink -> pystr;
  (** [datetime.fromtimestamp(t).isoformat()] *)
  isoformat : Q -> pystr
}.

(** ** Tables *)

Definition IGNORE_PATHS : list pystr := map py [
  "node_modules"; ".git"; "__pycache__"; "venv"; ".venv"; "env";
  "dist"; "build"; ".next"; "target"; "vendor"; "coverage";
  ".vscode"; ".idea"; "bin"; "obj"; "logs"; "tmp"; ".cache";
  ".tox"; ".mypy_cache"; ".pytest_cache"; "egg-info" ]%string.

Record LangInfo := { name : pystr; color : pystr }.

Definition lang (k n c : string) : pystr * LangInfo :=
  (py k, {| name := py n; color := py c |}).

Definition LANGUAGE_MAP : list (pystr * LangInfo) := [
  lang ".py" "Python" "#3572A5";
  lang ".js" "JavaScript" "#f1e05a";
  lang ".ts" "TypeScript" "#3178c6";
  lang ".jsx" "React JSX" "#61dafb";
  lang ".tsx" "React TSX" "#3178c6";
  lang ".c" "C" "#555555";
  lang ".cpp" "C++" "#f34b7d";
  lang ".h" "C/C++ Header" "#555555";
  lang ".hpp" "C++ Header" "#f34b7d";
  lang ".rs" "Rust" "#dea584";
  lang ".go" "Go" "#00ADD8";
  lang ".java" "Java" "#b07219";
  lang ".kt" "Kotlin" "#A97BFF";
  lang ".swift" "Swift" "#F05138";
  lang ".rb" "Ruby" "#701516";
  lang ".php" "PHP" "#4F5D95";
  lang ".cs" "C#" "#178600";
  lang ".cu" "CUDA" "#76b900";
  lang ".cuh" "CUDA Header" "#76b900";
  lang ".sh" "Shell" "#89e051";
  lang ".bat" "Batch" "#C1F12E";
  lang ".sql" "SQL" "#e38c00";
  lang ".proto" "Protobuf" "#4285F4";
  lang ".zig" "Zig" "#ec915c";
  lang ".lua" "Lua" "#000080";
  lang ".scala" "Scala" "#c22d40";
  lang ".r" "R" "#198CE7";
  lang ".dart" "Dart" "#00B4AB";
  lang ".ex" "Elixir" "#6e4a7e";
  lang ".exs" "Elixir Script" "#6e4a7e";
  lang ".vue" "Vue" "#41b883";
  lang ".svelte" "Svelte" "#ff3e00";
  lang ".json" "JSON" "#292929";
  lang ".yaml" "YAML" "#cb171e";
  lang ".yml" "YAML" "#cb171e";
  lang ".toml" "TOML" "#9c4221";
  lang ".xml" "XML" "#0060ac";
  lang ".ini" "INI" "#d1dbe0";
  lang ".cfg" "Config" "#d1dbe0";
  lang ".env" "Env" "#ECD53F";
  lang ".properties" "Properties" "#2A6277";
  lang ".html" "HTML" "#e34c26";
  lang ".htm" "HTML" "#e34c26";
  lang ".css" "CSS" "#563d7c";
  lang ".scss" "SCSS" "#c6538c";
  lang ".sass" "Sass" "#a53b70";
  lang ".less" "Less" "#1d365d";
  lang ".md" "Markdown" "#083fa1";
  lang ".rst" "reStructuredText" "#141414";
  lang ".txt" "Text" "#888888";
  lang ".dockerfile" "Dockerfile" "#384d54";
  lang ".makefile" "Makefile" "#427819";
  lang ".cmake" "CMake" "#DA3434";
  lang ".gradle" "Gradle" "#02303A";
  lang ".tf" "Terraform" "#5C4EE5";
  lang ".hcl" "HCL" "#5C4EE5";
  lang ".csv" "CSV" "#237346";
  lang ".graphql" "GraphQL" "#e10098";
  lang ".prisma" "Prisma" "#2D3748" ].

Definition SUPPORTED_EXTENSIONS : list pystr := map fst LANGUAGE_MAP.

Definition SPECIAL_FILENAMES : list (pystr * LangInfo) := [
  lang "Dockerfile" "Dockerfile" "#384d54";
  lang "Makefile" "Makefile" "#427819";
  lang "Procfile" "Procfile" "#6e4a7e";
  lang "Vagrantfile" "Vagrantfile" "#1563FF";
  lang "Gemfile" "Gemfile" "#701516";
  lang "Rakefile" "Rakefile" "#701516";
  lang "Justfile" "Justfile" "#384d54";
  lang ".gitignore" "Gitignore" "#F05032";
  lang ".dockerignore" "Dockerignore" "#384d54";
  lang "requirements.txt" "Requirements" "#3572A5";
  lang "package.json" "Package JSON" "#f1e05a";
  lang "tsconfig.json" "TS Config" "#3178c6";
  lang "Cargo.toml" "Cargo Config" "#dea584";
  lang "go.mod" "Go Module" "#00ADD8";
  lang "go.sum" "Go Sum" "#00ADD8";
  lang "pyproject.toml" "PyProject" "#3572A5";
  lang "setup.py" "Setup Script" "#3572A5";
  lang "setup.cfg" "Setup Config" "#3572A5";
  lang "docker-compose.yml" "Docker Compose" "#384d54";
  lang "docker-compose.yaml" "Docker Compose" "#384d54";
  lang ".env.example" "Env Example" "#ECD53F" ].

Definition esm_patterns : list import_pattern := [RE_esm; RE_require].

Definition IMPORT_PATTERNS : list (pystr * list import_pattern) := [
  (py ".py", [RE_import; RE_from]);
  (py ".js", esm_patterns);
  (py ".ts", esm_patterns);
  (py ".jsx", esm_patterns);
  (py ".tsx", esm_patterns);
  (py ".go", [RE_go]);
  (py ".rs", [RE_use]);
  (py ".java", [RE_import]);
  (py ".c", [RE_include]);
  (py ".cpp", [RE_include]);
  (py ".h", [RE_include]);
  (py ".cu", [RE_include]) ].

(** ** ComplexityAnalyzer *)

Definition BRANCH_KW : list (pystr * list pystr) :=
  let js := map py ["if "; "else "; "for "; "while "; "switch "; "case "; "catch "]%string in
  [ (py ".py", map py ["if "; "elif "; "else:"; "for "; "while "; "except "; "with "]%string);
    (py ".js", js);
    (py ".ts", js);
    (py ".jsx", js);
    (py ".tsx", js);
    (py ".go", map py ["if "; "else "; "for "; "switch "; "case "; "select "]%string);
    (py ".rs", map py ["if "; "else "; "for "; "while "; "match "; "loop "]%string);
    (py ".java", js);
    (py ".c", map py ["if "; "else "; "for "; "while "; "switch "; "case "]%string);
    (py ".cpp", js) ].

(** [len(l) - len(l.lstrip())] *)
Definition indent (l : pystr) : Z := len l - len (lstrip l).

(** [max(xs, default=d)] *)
Definition max_default (xs : list Z) (d : Z) : Z :=
  match xs with
  | [] => d
  | x :: rest => fold_left Z.max rest x
  end.

(** The lines of [score] after the three counts are known. *)
Definition score_formula (rt : Runtime) (total branch_count max_indent : Z) : Q :=
  let nesting := (Qmin (inject_Z max_indent / 4) 10 / 10)%Q in
  let density := (Qmin (inject_Z branch_count / inject_Z (Z.max total 1)) 1)%Q in
  let length := (Qmin (math_log10 rt (Z.max total 1) / 4) 1)%Q in
  round1 (Qmin ((density * (4 # 10) + nesting * (35 # 100) + length * (25 # 100)) * 100) 100)%Q.

Definition branch_count (keywords lines : list pystr) : Z :=
  len (filter (fun l => existsb (fun kw => contains kw l) keywords) lines).

Definition max_indent (lines : list pystr) : Z :=
  max_default (map indent (filter strip_nonempty lines)) 0.

(** The body of [score] once [content] is split into [lines]. *)
Definition score_lines (rt : Runtime) (lines : list pystr) (ext : pystr) : Q :=
  let total := len lines in
  if total =? 0 then 0%Q
  else
    let keywords := dict_get BRANCH_KW ext (map py ["if "; "for "; "while "]%string) in
    score_formula rt total (branch_count keywords lines) (max_indent lines).

Definition score (rt : Runtime) (content ext : pystr) : Q :=
  score_lines rt (split NL content) ext.

(** ** The file system *)

Record Stat := { st_size : Z; st_mtime : Q }.

(** What [Path.stat] and [open(...).read()] give for a file; [None] when the
    call raises. *)
Record File := { f_stat : option Stat; f_text : option pystr }.

(** A directory: its files and its sub-directories by name, in the order the
    operating system lists them. *)
#[local] Set Warnings "-register-all".
Inductive Dir := MkDir (files : list (pystr * File)) (subdirs : list (pystr * Dir)).

Definition dir_files (d : Dir) : list (pystr * File) :=
  match d with MkDir files _ => files end.

Definition dir_subdirs (d : Dir) : list (pystr * Dir) :=
  match d with MkDir _ subdirs => subdirs end.

(** [os.path.join(a, b)] for a relative [b] *)
Definition path_join (a b : pystr) : pystr :=
  match a with
  | [] => b
  | _ :: _ => if endswith os_sep a then a ++ b else a ++ os_sep ++ b
  end.

(** [os.path.basename] *)
Definition basename (p : pystr) : pystr := last (split SEP p) [].

(** The characters after the last dot, in reverse, when there is a dot. *)
Fixpoint after_last_dot (rev_name acc : pystr) : option pystr :=
  match rev_name with
  | [] => None
  | x :: r => if char_eqb x 46%N then Some acc else after_last_dot r (x :: acc)
  end.

(** [Path(name).suffix]: from the last dot on, unless that dot is the first
    or the last character. *)
Definition suffix (name : pystr) : pystr :=
  match after_last_dot (rev name) [] with
  | Some tail =>
      if (0 <? len tail) && (len tail + 1 <? len name) then 46%N :: tail else []
  | None => []
  end.

(** ** Sorting *)

Fixpoint str_ltb (a b : pystr) : bool :=
  match a, b with
  | _, [] => false
  | [], _ :: _ => true
  | x :: a', y :: b' => (x <? y)%N || (x =? y)%N && str_ltb a' b'
  end.

(** [before y x] holds when [y] has to come strictly before [x]. *)
Fixpoint insert_by {A : Type} (before : A -> A -> bool) (x : A) (l : list A) : list A :=
  match l with
  | [] => [x]
  | y :: rest => if before y x then y :: insert_by before x rest else x :: l
  end.

(** A stable sort: among elements that neither comes before the other, the
    order of [l] is kept. *)
Definition sort_by {A : Type} (before : A -> A -> bool) (l : list A) : list A :=
  fold_right (insert_by before) [] l.

(** [sorted(names)] *)
Definition sorted (l : list pystr) : list pystr := sort_by str_ltb l.

Definition Qltb (a b : Q) : bool := negb (Qle_bool b a).

(** [sorted(l, key=key, reverse=True)] *)
Definition sorted_desc {A : Type} (key : A -> Q) (l : list A) : list A :=
  sort_by (fun y x => Qltb (key x) (key y)) l.

(** ** os.walk *)

Record WalkEntry := {
  w_root : pystr;                (* the [root] of the triple *)
  w_rel : pystr;                 (* [root] relative to the top, empty at the top *)
  w_files : list (pystr * File)  (* the entries of [files], with what reading them gives *)
}.

(** [os.walk(top)], top-down.  [prune root dirs] is what the loop body leaves
    in [dirs] by assigning to [dirs[:]]; the walk descends into those names,
    in that order. *)
Fixpoint os_walk (prune : pystr -> list pystr -> list pystr)
    (top rel : pystr) (d : Dir) : list WalkEntry :=
  match d with
  | MkDir files subdirs =>
      let below :=
        map (fun entry : pystr * Dir =>
               let (dname, sub) := entry in
               (dname, os_walk prune (path_join top dname) (path_join rel dname) sub))
            subdirs in
      {| w_root := top; w_rel := rel; w_files := files |}
      :: flat_map (fun dname => dict_get below dname []) (prune top (map fst subdirs))
  end.

(** ** RepositoryProcessor *)

Record FileNodeInfo := {
  path : pystr;
  relative_path : pystr;
  size_bytes : Z;
  line_count : Z;
  extension : pystr;
  language : pystr;
  language_color : pystr;
  last_modified : pystr;
  imports : list pystr;
  complexity_score : Q;
  has_tests : bool
}.

(** The fields of [RepositoryProcessor.__init__]. *)
Record Processor := {
  root : pystr;
  max_files : Z;
  include_tests : bool;
  depth : Z
}.

(** [_extract_imports] *)
Definition _extract_imports (rt : Runtime) (content ext : pystr) : list pystr :=
  let patterns := dict_get IMPORT_PATTERNS ext [] in
  let imports := flat_map (fun p => re_findall rt p content) patterns in
  list_of_set rt imports.

(** [re.sub(r"^\.\.?/", "", imp)]: a leading [./] or [../] is removed. *)
Definition strip_relative_prefix (imp : pystr) : pystr :=
  if startswith (py "../") imp then skipn 3 imp
  else if startswith (py "./") imp then skipn 2 imp
  else imp.

Definition import_candidates (imp : pystr) : list pystr :=
  [ replace_char 46%N os_sep imp;
    replace_char 46%N os_sep imp ++ py ".py";
    replace_char SEP os_sep imp;
    replace_char SEP os_sep imp ++ py ".js";
    replace_char SEP os_sep imp ++ py ".ts";
    replace_char SEP os_sep imp ++ py ".tsx";
    replace_char SEP os_sep imp ++ py ".jsx";
    strip_relative_prefix imp ].

(** [_resolve_import]: the first key of [all_files], for the first candidate
    that has one, which ends with the candidate or contains it. *)
Fixpoint first_match (candidates all_files : list pystr) : option pystr :=
  match candidates with
  | [] => None
  | c :: rest =>
      match find (fun f => endswith c f || contains c f) all_files with
      | Some f => Some f
      | None => first_match rest all_files
      end
  end.

Definition _resolve_import (imp : pystr) (all_files : list pystr) : option pystr :=
  first_match (import_candidates imp) all_files.

(** The loop variables of [scan_and_read]. *)
Record ScanState := {
  meta_list : list FileNodeInfo;
  code_parts : list pystr;
  lang_stats : list (pystr * Z);
  total_lines : Z;
  total_bytes : Z
}.

Definition scan_start : ScanState :=
  {| meta_list := []; code_parts := []; lang_stats := [];
     total_lines := 0; total_bytes := 0 |}.

(** [d[k] += n] on a [defaultdict(int)], which keeps the order in which keys
    were first inserted *)
Fixpoint dict_add (k : pystr) (n : Z) (d : list (pystr * Z)) : list (pystr * Z) :=
  match d with
  | [] => [(k, n)]
  | (k', v) :: rest =>
      if str_eqb k k' then (k', v + n) :: rest else (k', v) :: dict_add k n rest
  end.

Definition MAX_FILE_BYTES : Z := 200000.

Definition TRUNCATED : pystr := py "...(truncated)...".

(** The excerpt [show] of a file. *)
Definition excerpt (content : pystr) (lns : list pystr) : pystr :=
  if len lns <=? 200 then content
  else join [NL] (firstn 120 lns ++ [TRUNCATED] ++ last_n 50 lns).

(** [is_special] *)
Definition is_special (rt : Runtime) (fname : pystr) : bool :=
  str_in fname (map fst SPECIAL_FILENAMES)
  || str_in (str_lower rt fname) (map (fun k => str_lower rt k) (map fst SPECIAL_FILENAMES)).

(** The body of the loop over the files of one directory, for the file [fn].
    Leaving [st] unchanged is [continue], or an exception caught and logged
    by the [except] clause. *)
Definition scan_file (rt : Runtime) (self : Processor) (w : WalkEntry)
    (fn : pystr) (st : ScanState) : ScanState :=
  let fp := path_join (w_root w) fn in
  let ext := str_lower rt (suffix fn) in
  let fname := fn in
  let special := is_special rt fname in
  if negb (str_in ext SUPPORTED_EXTENSIONS) && negb special then st
  else
    let rel := path_join (w_rel w) fn in
    match assoc fn (w_files w) with
    | None => st
    | Some f =>
        match f_stat f with
        | None => st
        | Some s =>
            if st_size s >? MAX_FILE_BYTES then st
            else
              match f_text f with
              | None => st
              | Some content =>
                  let lns := split NL content in
                  let info :=
                    if special && negb (str_in ext SUPPORTED_EXTENSIONS)
                    then dict_get SPECIAL_FILENAMES fname
                           {| name := py "Config"; color := py "#888" |}
                    else dict_get LANGUAGE_MAP ext
                           {| name := py "Unknown"; color := py "#888" |} in
                  let imps := _extract_imports rt content ext in
                  let cx := score rt content ext in
                  let show := excerpt content lns in
                  {| meta_list := meta_list st ++
                       [ {| path := fp; relative_path := rel;
                            size_bytes := st_size s;
                            line_count := len lns; extension := ext;
                            language := name info;
                            language_color := color info;
                            last_modified := isoformat rt (st_mtime s);
                            imports := imps; complexity_score := cx;
                            has_tests := contains (py "test") (str_lower rt rel) |} ];
                     code_parts := code_parts st ++
                       [ [NL] ++ py "--- FILE: " ++ rel ++ py " | " ++ name info
                         ++ py " | " ++ str_of_Z (len lns) ++ py " lines | complexity="
                         ++ float_str cx ++ py " ---" ++ [NL] ++ show ++ [NL] ];
                     lang_stats := dict_add (name info) (len lns) (lang_stats st);
                     total_lines := total_lines st + len lns;
                     total_bytes := total_bytes st + st_size s |}
              end
        end
    end.

(** [for fn in sorted(files)], with its [break] once [max_files] records are
    held. *)
Fixpoint scan_files (rt : Runtime) (self : Processor) (w : WalkEntry)
    (fns : list pystr) (st : ScanState) : ScanState :=
  match fns with
  | [] => st
  | fn :: rest =>
      if len (meta_list st) >=? max_files self then st
      else scan_files rt self w rest (scan_file rt self w fn st)
  end.

(** What the scan leaves in [dirs[:]]. *)
Definition scan_prune (rt : Runtime) (self : Processor) (_root : pystr)
    (dirs : list pystr) : list pystr :=
  let kept := sorted (filter (fun d => negb (str_in d IGNORE_PATHS)) dirs) in
  if negb (include_tests self)
  then filter (fun d => negb (contains (py "test") (str_lower rt d))
                        && negb (contains (py "spec") (str_lower rt d))) kept
  else kept.

(** One iteration of [for root, dirs, files in os.walk(self.root)]. *)
Definition scan_dir (rt : Runtime) (self : Processor) (st : ScanState)
    (w : WalkEntry) : ScanState :=
  scan_files rt self w (sorted (map fst (w_files w))) st.

(** The triples that [os.walk(self.root)] yields during the scan of the tree
    [fs] found there. *)
Definition scan_walk (rt : Runtime) (self : Processor) (fs : Dir) : list WalkEntry :=
  os_walk (scan_prune rt self) (root self) [] fs.

(** The first loop of [scan_and_read]. *)
Definition scan (rt : Runtime) (self : Processor) (fs : Dir) : ScanState :=
  fold_left (scan_dir rt self) (scan_walk rt self fs) scan_start.

(** *** Dependency links *)

(** The keys of [{m.relative_path: m for m in meta_list}], in the order of
    their first insertion. *)
Definition dict_keys (keys : list pystr) : list pystr :=
  fold_left (fun acc k => if str_in k acc then acc else acc ++ [k]) keys [].

Definition all_rels (ms : list FileNodeInfo) : list pystr :=
  dict_keys (map relative_path ms).

(** The truth value of [target and target != rel] *)
Definition link_wanted (tgt : option pystr) (rel : pystr) : option pystr :=
  match tgt with
  | Some t =>
      match t with
      | [] => None
      | _ :: _ => if str_eqb t rel then None else Some t
      end
  | None => None
  end.

(** The body of [for imp in m.imports]: the link of one import, if any. *)
Definition link_of (keys : list pystr) (m : FileNodeInfo) (imp : pystr) : list DepLink :=
  match link_wanted (_resolve_import imp keys) (relative_path m) with
  | Some t => [ {| source := relative_path m; target := t;
                   type_ := py "imports"; raw := imp |} ]
  | None => []
  end.

Definition links_of (keys : list pystr) (m : FileNodeInfo) : list DepLink :=
  flat_map (link_of keys m) (imports m).

Definition dep_links (ms : list FileNodeInfo) : list DepLink :=
  flat_map (links_of (all_rels ms)) ms.

(** *** Summary *)

Record Hotspot := {
  hs_file : pystr;
  hs_complexity : Q;
  hs_lines : Z;
  hs_language : pystr
}.

Record Summary := {
  sm_name : pystr;
  sm_total_files : Z;
  sm_total_lines : Z;
  sm_total_bytes : Z;
  sm_languages : list (pystr * Z);
  sm_dependency_links : list DepLink;
  sm_hotspots : list Hotspot;
  sm_most_connected : list (pystr * Z);
  sm_avg_complexity : Q
}.

Definition hotspots (ms : list FileNodeInfo) : list Hotspot :=
  map (fun f => {| hs_file := relative_path f; hs_complexity := complexity_score f;
                   hs_lines := line_count f; hs_language := language f |})
      (firstn 5 (sorted_desc complexity_score ms)).

Definition conn (links : list DepLink) : list (pystr * Z) :=
  fold_left (fun d l => dict_add (target l) 1 (dict_add (source l) 1 d)) links [].

Definition most_connected (links : list DepLink) : list (pystr * Z) :=
  firstn 5 (sorted_desc (fun x : pystr * Z => inject_Z (snd x)) (conn links)).

Definition Qsum (xs : list Q) : Q := fold_left Qplus xs 0%Q.

Definition summary_of (self : Processor) (st : ScanState) : Summary :=
  let ms := meta_list st in
  let links := dep_links ms in
  {| sm_name := basename (root self);
     sm_total_files := len ms;
     sm_total_lines := total_lines st;
     sm_total_bytes := total_bytes st;
     sm_languages := lang_stats st;
     sm_dependency_links := links;
     sm_hotspots := hotspots ms;
     sm_most_connected := most_connected links;
     sm_avg_complexity :=
       round1 (Qsum (map complexity_score ms) / inject_Z (Z.max (len ms) 1))%Q |}.

(** *** generate_tree *)

(** [s * n] *)
Definition str_repeat (s : pystr) (n : Z) : pystr := concat (repeat s (Z.to_nat n)).

Definition BAR : pystr := [9474%N; 32%N; 32%N; 32%N].
Definition FOLDER : pystr := [128194%N; 32%N].
Definition PAGE : pystr := [128196%N; 32%N].

(** [root.replace(self.root, "").count(os.sep)] *)
Definition level (self : Processor) (dirpath : pystr) : Z :=
  count_char SEP (replace (root self) [] dirpath).

Definition tree_prune (self : Processor) (dirpath : pystr) (dirs : list pystr) : list pystr :=
  if level self dirpath >=? depth self then []
  else sorted (filter (fun d => negb (str_in d IGNORE_PATHS)) dirs).

Definition tree_lines (self : Processor) (w : WalkEntry) : list pystr :=
  let lv := level self (w_root w) in
  if lv >=? depth self then []
  else
    (str_repeat BAR lv ++ FOLDER ++ basename (w_root w) ++ [SEP])
    :: map (fun f => str_repeat BAR (lv + 1) ++ PAGE ++ f)
           (filter (fun f => str_in (suffix f) SUPPORTED_EXTENSIONS
                             || str_in f (map fst SPECIAL_FILENAMES))
                   (sorted (map fst (w_files w)))).

Definition generate_tree (self : Processor) (fs : Dir) : pystr :=
  join [NL] (flat_map (tree_lines self) (os_walk (tree_prune self) (root self) [] fs)).

(** *** The payload *)

Definition MAX_PAYLOAD_CHARS : Z := 300000.

Definition header (rt : Runtime) (sm : Summary) (tree : pystr) : pystr :=
  py "REPOSITORY: " ++ sm_name sm ++ [NL]
  ++ py "LANGUAGES: " ++ json_dumps_languages rt (sm_languages sm) ++ [NL]
  ++ py "FILES: " ++ str_of_Z (sm_total_files sm) ++ py " | LINES: "
  ++ str_of_Z (sm_total_lines sm) ++ [NL]
  ++ py "AVG COMPLEXITY: " ++ float_str (sm_avg_complexity sm) ++ py "/100" ++ [NL; NL]
  ++ py "STRUCTURE:" ++ [NL] ++ tree ++ [NL; NL]
  ++ py "IMPORT DEPS:" ++ [NL] ++ json_dumps_links rt (sm_dependency_links sm) ++ [NL; NL].

Definition short_header (sm : Summary) : pystr :=
  py "REPOSITORY: " ++ sm_name sm ++ [NL]
  ++ py "FILES: " ++ str_of_Z (sm_total_files sm) ++ [NL; NL].

(** The header kept, after the test [remaining <= 0]. *)
Definition payload_header (rt : Runtime) (sm : Summary) (tree : pystr) : pystr :=
  let payload := header rt sm tree in
  if MAX_PAYLOAD_CHARS - len payload <=? 0 then short_header sm else payload.

Definition ENTRY_POINTS : list pystr := map py ["main"; "app"; "index"; "server"]%string.

(** The sort key of [sorted_files]. *)
Definition importance (rt : Runtime) (x : FileNodeInfo * pystr) : Q :=
  (complexity_score (fst x)
   + (if existsb (fun e => contains e (str_lower rt (relative_path (fst x)))) ENTRY_POINTS
      then 100 else 0))%Q.

Definition sorted_files (rt : Runtime) (st : ScanState) : list (FileNodeInfo * pystr) :=
  sorted_desc (importance rt) (combine (meta_list st) (code_parts st)).

Definition total_code (sf : list (FileNodeInfo * pystr)) : Z :=
  fold_left Z.add (map (fun x => len (snd x)) sf) 0.

Definition TRUNCATED_PART : pystr := [NL] ++ py "...(truncated)..." ++ [NL].
Definition TRUNCATED_80 : pystr := [NL] ++ py "...(truncated to first 80 lines)..." ++ [NL].

(** The [else] branch for [i >= 15]: the first 80 lines of [part]. *)
Definition trim_80 (part : pystr) : pystr :=
  let lines := split NL part in
  let trimmed := join [NL] (firstn 80 lines) in
  if len lines >? 80 then trimmed ++ TRUNCATED_80 else trimmed.

(** The text that is cut and the [budget] of the file at rank [i]. *)
Definition rank_budget (i : Z) (part : pystr) (left : Z) : pystr * Z :=
  if i <? 5 then (part, Z.min (len part) (Z.min 60000 left))
  else if i <? 15 then (part, Z.min (len part) (Z.min 10000 left))
  else
    let trimmed := trim_80 part in
    (trimmed, Z.min (len trimmed) (Z.min 3000 left)).

(** What is appended to [final_parts] for one file. *)
Definition emit (meta : FileNodeInfo) (part : pystr) (budget : Z) : pystr :=
  if budget <=? 0 then
    let header_line :=
      match part with
      | [] => py "--- FILE: " ++ relative_path meta ++ py " (content omitted - token limit) ---"
      | _ :: _ => hd [] (split NL part)
      end in
    header_line ++ [NL]
  else
    let truncated := take budget part in
    if len part >? budget then truncated ++ TRUNCATED_PART else truncated.

(** The loop [for i, (meta, part) in enumerate(sorted_files)], from rank [i]
    on, with [used] characters already spent. *)
Fixpoint allocate (remaining i used : Z) (sf : list (FileNodeInfo * pystr)) : list pystr :=
  match sf with
  | [] => []
  | (meta, part) :: rest =>
      let (part', budget) := rank_budget i part (remaining - used) in
      let piece := emit meta part' budget in
      piece :: allocate remaining (i + 1) (used + len piece) rest
  end.

Definition final_parts (remaining : Z) (sf : list (FileNodeInfo * pystr)) : list pystr :=
  if total_code sf <=? remaining then map snd sf
  else allocate remaining 0 0 sf.

Definition PAYLOAD_TRUNCATED : pystr :=
  [NL; NL] ++ py "...(payload truncated to fit context window)...".

(** The final safety check. *)
Definition clip (payload : pystr) : pystr :=
  if len payload >? MAX_PAYLOAD_CHARS
  then take MAX_PAYLOAD_CHARS payload ++ PAYLOAD_TRUNCATED
  else payload.

Definition payload_of (rt : Runtime) (self : Processor) (fs : Dir) (st : ScanState) : pystr :=
  let sm := summary_of self st in
  let head := payload_header rt sm (generate_tree self fs) in
  let remaining := MAX_PAYLOAD_CHARS - len head in
  clip (head ++ concat (final_parts remaining (sorted_files rt st))).

(** [scan_and_read]: [(payload, meta_list, summary)]. *)
Definition scan_and_read (rt : Runtime) (self : Processor) (fs : Dir)
    : pystr * list FileNodeInfo * Summary :=
  let st := scan rt self fs in
  (payload_of rt self fs st, meta_list st, summary_of self st).

(** ** The endpoints *)

Record AnalyzeRequest := {
  directory_path : pystr;
  nvidia_api_key : option pystr;
  req_max_files : Z;
  req_include_tests : bool;
  req_depth : Z
}.

(** What [RepoResolver.resolve] gives: an [HTTPException], or the absolute
    path of a local directory, here with the tree found there. *)
Inductive Resolved :=
  | ResolveError (status_code : Z) (detail : pystr)
  | LocalDir (abs_path : pystr) (tree : Dir).

(** The machine the server runs on: the environment variable
    [NVIDIA_API_KEY] (empty when unset) and the resolution of a path or URL. *)
Record Host := {
  env_key : pystr;
  resolve : pystr -> Resolved
}.


(** [s.strip()] *)
Definition strip (s : pystr) : pystr := rev (lstrip (rev (lstrip s))).

(** [APIKeyManager.get_key]; [None] when it raises. *)
Definition get_key (h : Host) (request_key : option pystr) : option pystr :=
  match request_key with
  | Some k =>
      match strip k with
      | [] => match strip (env_key h) with [] => None | e => Some e end
      | k' => Some k'
      end
  | None => match strip (env_key h) with [] => None | e => Some e end
  end.

Definition processor_of (abs_path : pystr) (req : AnalyzeRequest) : Processor :=
  {| root := abs_path; max_files := req_max_files req;
     include_tests := req_include_tests req; depth := req_depth req |}.


(** [enumerate(l)], counted from [i] *)
Fixpoint enumerate {A : Type} (i : Z) (l : list A) : list (Z * A) :=
  match l with
  | [] => []
  | x :: rest => (i, x) :: enumerate (i + 1) rest
  end.




(** ** The rest of APIKeyManager *)

(** [APIKeyManager.has_key] *)
Definition has_key (h : Host) : bool :=
  match strip (env_key h) with
  | [] => false
  | _ :: _ => true
  end.

(** ** NemotronOrchestrator *)

(** The system prompts, by name; their texts are constants. *)
Inductive system_prompt := SYS_ARCH | SYS_QUERY | SYS_SECURITY | SYS_ONBOARDING | SYS_CUDA.

(** [chunk.choices[0].delta]: the two fields that are read. *)
Record Delta := { reasoning_content : option pystr; content : option pystr }.

(** What the client gives for one request: the chunks received, each with its
    delta ([None] when [chunk.choices] is empty or the delta is missing), and
    the exception that ended the request, if one did ([create] raising gives
    no chunk). *)
Record ModelStream := { chunks : list (option Delta); failure : option pystr }.

(** The dictionaries that [_stream_generic] dumps. *)
Inductive Event :=
  | Thought (text : pystr)
  | Content (event_type : pystr) (text : pystr)
  | Done
  | Failed (text : pystr).

(** The events of one chunk: [if r:] and [if d.content:] hold for a string
    that is not empty. *)
Definition chunk_events (event_type : pystr) (chunk : option Delta) : list Event :=
  match chunk with
  | None => []
  | Some d =>
      match reasoning_content d with
      | Some (x :: r) => [Thought (x :: r)]
      | _ => []
      end
      ++ match content d with
         | Some (x :: c) => [Content event_type (x :: c)]
         | _ => []
         end
  end.

(** The events that [_stream_generic] yields, before they are dumped. *)
Definition stream_events (reply : ModelStream) (event_type : pystr) : list Event :=
  flat_map (chunk_events event_type) (chunks reply)
  ++ [ match failure reply with
       | Some e => Failed e
       | None => Done
       end ].

(** [_stream_generic]: each event as [data: <json>] and an empty line;
    [dumps] stands for [json.dumps] of the dictionary. *)
Definition _stream_generic (dumps : Event -> pystr) (reply : ModelStream)
    (event_type : pystr) : list pystr :=
  map (fun e => py "data: " ++ dumps e ++ [NL; NL]) (stream_events reply event_type).

(** A call of the model: the arguments that a [stream_*] method hands to
    [_stream_generic]. *)
Record ModelCall := { system : system_prompt; user : pystr; call_event_type : pystr }.

Definition stream_arch (payload : pystr) : ModelCall :=
  {| system := SYS_ARCH; user := py "Analyze:" ++ [NL; NL] ++ payload;
     call_event_type := py "content" |}.

Definition stream_query (payload question : pystr) : ModelCall :=
  {| system := SYS_QUERY;
     user := py "CODEBASE:" ++ [NL] ++ payload ++ [NL; NL] ++ py "Q: " ++ question;
     call_event_type := py "answer" |}.

Definition stream_security (payload : pystr) : ModelCall :=
  {| system := SYS_SECURITY; user := py "Audit this codebase:" ++ [NL; NL] ++ payload;
     call_event_type := py "content" |}.

Definition stream_onboarding (payload : pystr) : ModelCall :=
  {| system := SYS_ONBOARDING; user := py "Create onboarding guide:" ++ [NL; NL] ++ payload;
     call_event_type := py "content" |}.

Definition stream_cuda (payload : pystr) : ModelCall :=
  {| system := SYS_CUDA; user := py "Analyze GPU/CUDA usage:" ++ [NL; NL] ++ payload;
     call_event_type := py "content" |}.

(** ** The other endpoints *)

Record QueryRequest := {
  q_directory_path : pystr;
  q_nvidia_api_key : option pystr;
  question : pystr;
  q_max_files : Z
}.

(** The first event of [security_scan], [onboarding_guide] and
    [cuda_analysis]; [md_languages] is sent by [cuda_analysis] only. *)
Record Metadata := {
  md_total_files : Z;
  md_name : pystr;
  md_languages : option (list (pystr * Z))
}.

(** What these endpoints give back: an [HTTPException], or a stream that
    starts with [metadata], if any, and goes on with the events of the model
    called with [call].  The endpoints answer any other exception with the
    status 500; the calls as they are modelled here raise none. *)
Inductive Reply :=
  | Raised (status_code : Z) (detail : pystr)
  | Streamed (metadata : option Metadata) (call : ModelCall).

Definition NO_KEY : pystr :=
  py "No API key. Save one via POST /api/v1/save-key or pass nvidia_api_key.".

Definition NO_FILES : pystr := py "No source files found.".

(** [query]: the processor is built with [max_files] alone. *)
Definition query (rt : Runtime) (h : Host) (req : QueryRequest) : Reply :=
  match get_key h (q_nvidia_api_key req) with
  | None => Raised 400 NO_KEY
  | Some _api_key =>
      match resolve h (q_directory_path req) with
      | ResolveError code detail => Raised code detail
      | LocalDir abs_path fs =>
          let proc := {| root := abs_path; max_files := q_max_files req;
                         include_tests := false; depth := 6 |} in
          let '(payload, files, _) := scan_and_read rt proc fs in
          match files with
          | [] => Raised 400 NO_FILES
          | _ :: _ => Streamed None (stream_query payload (question req))
          end
      end
  end.

(** The body shared by [security_scan], [onboarding_guide] and
    [cuda_analysis], which differ in the metadata and in the method of the
    orchestrator. *)
Definition audit_endpoint
    (metadata_of : list FileNodeInfo -> Summary -> Metadata)
    (stream : pystr -> ModelCall)
    (rt : Runtime) (h : Host) (req : AnalyzeRequest) : Reply :=
  match get_key h (nvidia_api_key req) with
  | None => Raised 400 NO_KEY
  | Some _api_key =>
      match resolve h (directory_path req) with
      | ResolveError code detail => Raised code detail
      | LocalDir abs_path fs =>
          let '(payload, files, summary) :=
            scan_and_read rt (processor_of abs_path req) fs in
          match files with
          | [] => Raised 400 NO_FILES
          | _ :: _ => Streamed (Some (metadata_of files summary)) (stream payload)
          end
      end
  end.

Definition short_metadata (files : list FileNodeInfo) (summary : Summary) : Metadata :=
  {| md_total_files := len files; md_name := sm_name summary; md_languages := None |}.

(** [security_scan] *)
Definition security_scan : Runtime -> Host -> AnalyzeRequest -> Reply :=
  audit_endpoint short_metadata stream_security.

(** [onboarding_guide] *)
Definition onboarding_guide : Runtime -> Host -> AnalyzeRequest -> Reply :=
  audit_endpoint short_metadata stream_onboarding.

(** [cuda_analysis] *)
Definition cuda_analysis : Runtime -> Host -> AnalyzeRequest -> Reply :=
  audit_endpoint
    (fun files summary =>
       {| md_total_files := len files; md_name := sm_name summary;
          md_languages := Some (sm_languages summary) |})
    stream_cuda.

(** *** The Mermaid export *)

(** [d[k] = v] on a dict: the value is replaced where the key stands, or the
    key is added at the end. *)
Fixpoint dict_set {V : Type} (k : pystr) (v : V) (d : list (pystr * V)) : list (pystr * V) :=
  match d with
  | [] => [(k, v)]
  | (k', v') :: rest =>
      if str_eqb k k' then (k', v) :: rest else (k', v') :: dict_set k v rest
  end.

(** [f"N{i}"] *)
Definition node_id (i : Z) : pystr := py "N" ++ str_of_Z i.

Definition DQUOTE : char := 34%N.

(** The first loop of [mermaid]: [ids] and [lines] after the records. *)
Definition mermaid_nodes (files : list FileNodeInfo)
    : list (pystr * pystr) * list pystr :=
  fold_left
    (fun (st : list (pystr * pystr) * list pystr) (p : Z * FileNodeInfo) =>
       let (ids, lines) := st in
       let (i, f) := p in
       (dict_set (relative_path f) (node_id i) ids,
        lines ++ [py "    " ++ node_id i ++ py "[" ++ [DQUOTE] ++ relative_path f
                  ++ [DQUOTE] ++ py "]"]))
    (enumerate 0 files) ([], [py "graph TD"]).

(** The second loop: one line for each link whose two ends have an id that is
    not empty. *)
Definition mermaid_edge (ids : list (pystr * pystr)) (link : DepLink) : list pystr :=
  match assoc (source link) ids, assoc (target link) ids with
  | Some (x :: s), Some (y :: t) =>
      [py "    " ++ (x :: s) ++ py " -->|imports| " ++ (y :: t)]
  | _, _ => []
  end.

Definition mermaid_lines (files : list FileNodeInfo) (links : list DepLink) : list pystr :=
  let (ids, lines) := mermaid_nodes files in
  lines ++ flat_map (mermaid_edge ids) links.

Inductive MermaidReply :=
  | MermaidRaised (status_code : Z) (detail : pystr)
  | MermaidBody (mermaid_text : pystr) (summary : Summary).

(** [mermaid]; an exception of [RepoResolver.resolve] is not caught. *)
Definition mermaid (rt : Runtime) (h : Host) (req : AnalyzeRequest) : MermaidReply :=
  match resolve h (directory_path req) with
  | ResolveError code detail => MermaidRaised code detail
  | LocalDir abs_path fs =>
      let '(_, files, summary) := scan_and_read rt (processor_of abs_path req) fs in
      MermaidBody (join [NL] (mermaid_lines files (sm_dependency_links summary))) summary
  end.

(** ** The files of a tree *)

(** Induction on a directory tree, with the property known of every
    sub-directory. *)
Fixpoint Dir_nested_ind (P : Dir -> Prop)
    (step : forall files subdirs,
        Forall (fun e : pystr * Dir => P (snd e)) subdirs -> P (MkDir files subdirs))
    (d : Dir) : P d :=
  match d with
  | MkDir files subdirs =>
      step files subdirs
        ((fix all (l : list (pystr * Dir)) : Forall (fun e => P (snd e)) l :=
            match l with
            | [] => Forall_nil _
            | e :: rest =>
                Forall_cons e
                  (match e as e0 return P (snd e0) with
                   | (_, sub) => Dir_nested_ind P step sub
                   end)
                  (all rest)
            end) subdirs)
  end.


(** Every file below [top], under its full path, whether the walk reaches it
    or not. *)
Fixpoint tree_files (top : pystr) (d : Dir) : list (pystr * File) :=
  match d with
  | MkDir files subdirs =>
      map (fun e : pystr * File => (path_join top (fst e), snd e)) files
      ++ flat_map (fun entry : pystr * Dir =>
                     let (dname, sub) := entry in
                     tree_files (path_join top dname) sub)
                  subdirs
  end.

(** ** Two scans of one directory *)

(** No two files of a directory bear the same name. *)
Inductive unique_names : Dir -> Prop :=
  | unique_MkDir (files : list (pystr * File)) (subdirs : list (pystr * Dir)) :
      NoDup (map fst files) ->
      (forall dname sub, In (dname, sub) subdirs -> unique_names sub) ->
      unique_names (MkDir files subdirs).

(** The same directory listed in another order: the same files, the same
    names of sub-directories, and under each name the same directory
    again. *)
Inductive same_tree : Dir -> Dir -> Prop :=
  | same_MkDir (files files' : list (pystr * File)) (subdirs subdirs' : list (pystr * Dir)) :
      Permutation files files' ->
      Permutation (map fst subdirs) (map fst subdirs') ->
      (forall dname sub sub',
          In (dname, sub) subdirs -> In (dname, sub') subdirs' -> same_tree sub sub') ->
      same_tree (MkDir files subdirs) (MkDir files' subdirs').

(** Two triples of [os.walk] for the same directory. *)
Definition same_entry (w w' : WalkEntry) : Prop :=
  w_root w = w_root w' /\ w_rel w = w_rel w' /\
  Permutation (w_files w) (w_files w') /\ NoDup (map fst (w_files w)).

(** Two interpreters that differ at most in their string hashes, hence in
    the iteration order of their sets. *)
Definition same_python (rt rt' : Runtime) : Prop :=
  str_lower rt = str_lower rt' /\ re_findall rt = re_findall rt' /\
  math_log10 rt = math_log10 rt' /\
  json_dumps_languages rt = json_dumps_languages rt' /\
  json_dumps_links rt = json_dumps_links rt' /\
  isoformat rt = isoformat rt'.

(** [list(set(xs))] holds the elements of [xs], each once. *)
Definition set_order_ok (rt : Runtime) : Prop :=
  forall xs : list pystr,
    NoDup (list_of_set rt xs) /\ (forall x, In x (list_of_set rt xs) <-> In x xs).

(** Determinism of the records and of the summary, across any two runs. *)
Definition scan_deterministic : Prop :=
  forall (rt rt' : Runtime) (self : Processor) (fs : Dir),
    same_python rt rt' -> set_order_ok rt -> set_order_ok rt' ->
    snd (fst (scan_and_read rt self fs)) = snd (fst (scan_and_read rt' self fs)) /\
    snd (scan_and_read rt self fs) = snd (scan_and_read rt' self fs).

(** ** The empty result, as the specification words it *)


(** ** The score, as the specification words it *)


(** ** Budgeting, as the specification words it *)

(** The cap of the tier of rank [i]. *)
Definition tier_cap (i : Z) : Z :=
  if i <? 5 then 60000 else if i <? 15 then 10000 else 3000.

(** What the loop offers the file at position [k] of [sf] before its own
    length is taken into account: the cap of its tier, or what is left of
    [remaining] after the pieces of the earlier ranks if that is less. *)
Definition budget_ceiling (remaining : Z) (sf : list (FileNodeInfo * pystr)) (k : nat) : Z :=
  Z.min (tier_cap (Z.of_nat k))
        (remaining - len (concat (firstn k (allocate remaining 0 0 sf)))).

(** The remaining budget of a scan, and its ranked pairs. *)
Definition remaining_of (rt : Runtime) (self : Processor) (fs : Dir) : Z :=
  MAX_PAYLOAD_CHARS
  - len (payload_header rt (summary_of self (scan rt self fs)) (generate_tree self fs)).

Definition ranked (rt : Runtime) (self : Processor) (fs : Dir) : list (FileNodeInfo * pystr) :=
  sorted_files rt (scan rt self fs).

(** Budgeting monotonicity in the length of what is emitted: on the
    budgeting path, the piece of a file of strictly greater importance is
    never shorter. *)
Definition emitted_length_monotone (rt : Runtime) (self : Processor) (fs : Dir) : Prop :=
  let sf := ranked rt self fs in
  let parts := final_parts (remaining_of rt self fs) sf in
  remaining_of rt self fs < total_code sf ->
  forall (i j : nat) (a b : FileNodeInfo * pystr) (pa pb : pystr),
    nth_error sf i = Some a -> nth_error sf j = Some b ->
    (importance rt b < importance rt a)%Q ->
    nth_error parts i = Some pa -> nth_error parts j = Some pb ->
    len pb <= len pa.

(** A default for [nth]. *)
Definition no_pair : FileNodeInfo * pystr :=
  (Build_FileNodeInfo [] [] 0 0 [] [] [] [] [] 0 false, []).

(** A test that refutes the monotonicity of emitted lengths on given ranked
    pairs and pieces: the budgeting path is taken, and the pair at rank 0 is
    strictly more important than the pair at rank 1 but its piece is
    strictly shorter. *)
Definition refutes (rt : Runtime) (remaining : Z) (sf : list (FileNodeInfo * pystr))
    (parts : list pystr) : bool :=
  (remaining <? total_code sf)
  && Nat.ltb 1 (length sf)
  && Nat.ltb 1 (length parts)
  && Qltb (importance rt (nth 1 sf no_pair)) (importance rt (nth 0 sf no_pair))
  && (len (nth 0 parts []) <? len (nth 1 parts [])).

(** ** What the scan records for a file *)

Definition CONFIG_INFO : LangInfo := {| name := py "Config"; color := py "#888" |}.
Definition UNKNOWN_INFO : LangInfo := {| name := py "Unknown"; color := py "#888" |}.

(** The language entry that [scan_and_read] picks for the file named [fn]. *)
Definition info_of (rt : Runtime) (fn : pystr) : LangInfo :=
  let ext := str_lower rt (suffix fn) in
  if is_special rt fn && negb (str_in ext SUPPORTED_EXTENSIONS)
  then dict_get SPECIAL_FILENAMES fn CONFIG_INFO
  else dict_get LANGUAGE_MAP ext UNKNOWN_INFO.

(** The record appended for the file [fn] of the directory [w], of status [s]
    and text [content]. *)
Definition record_of (rt : Runtime) (w : WalkEntry) (fn : pystr) (s : Stat)
    (content : pystr) : FileNodeInfo :=
  let ext := str_lower rt (suffix fn) in
  let rel := path_join (w_rel w) fn in
  {| path := path_join (w_root w) fn; relative_path := rel;
     size_bytes := st_size s;
     line_count := len (split NL content); extension := ext;
     language := name (info_of rt fn);
     language_color := color (info_of rt fn);
     last_modified := isoformat rt (st_mtime s);
     imports := _extract_imports rt content ext;
     complexity_score := score rt content ext;
     has_tests := contains (py "test") (str_lower rt rel) |}.

(** A file that the scan accepts: a recognized name, a status with a size
    within the ceiling, a text that can be read. *)
Definition accepted (rt : Runtime) (w : WalkEntry) (fn : pystr) (s : Stat)
    (content : pystr) : Prop :=
  (str_in (str_lower rt (suffix fn)) SUPPORTED_EXTENSIONS = true \/ is_special rt fn = true) /\
  exists f, assoc fn (w_files w) = Some f /\ f_stat f = Some s /\
            f_text f = Some content /\ st_size s <= MAX_FILE_BYTES.



(** The number of links that have [f] at an end, counted once for each
    end. *)
Definition degree (f : pystr) (links : list DepLink) : Z :=
  len (filter (fun l => str_eqb f (source l)) links)
  + len (filter (fun l => str_eqb f (target l)) links).


(** A string of white space only, the empty one included: [s.strip()] is
    empty. *)
Definition blank (s : pystr) : Prop := forallb is_space s = true.

(** The line of [mermaid] for the record at position [i], and the line for a
    link between the nodes [i] and [j]. *)
Definition node_line (p : Z * FileNodeInfo) : pystr :=
  py "    " ++ node_id (fst p) ++ py "[" ++ [DQUOTE] ++ relative_path (snd p)
  ++ [DQUOTE] ++ py "]".

Definition edge_line (i j : Z) : pystr :=
  py "    " ++ node_id i ++ py " -->|imports| " ++ node_id j.

(** An event that ends a stream. *)
Definition terminal (e : Event) : bool :=
  match e with
  | Done | Failed _ => true
  | Thought _ | Content _ _ => false
  end.

(** The text of a content event and of a thought, empty for the others. *)
Definition content_text (e : Event) : pystr :=
  match e with
  | Content _ t => t
  | _ => []
  end.

Definition thought_text (e : Event) : pystr :=
  match e with
  | Thought t => t
  | _ => []
  end.

(** The text that a chunk brings, empty when it brings none. *)
Definition chunk_content (c : option Delta) : pystr :=
  match c with
  | Some {| content := Some t |} => t
  | _ => []
  end.

Definition chunk_reasoning (c : option Delta) : pystr :=
  match c with
  | Some {| reasoning_content := Some t |} => t
  | _ => []
  end.

(** ** A small runtime and file system, for examples *)

Module Demo.

(** Lower-casing of the ASCII letters. *)
Definition lower_ascii (s : pystr) : pystr :=
  map (fun c => if (65 <=? c)%N && (c <=? 90)%N then (c + 32)%N else c) s.

Definition is_word (c : char) : bool :=
  ((48 <=? c) && (c <=? 57) || (65 <=? c) && (c <=? 90)
   || (97 <=? c) && (c <=? 122) || (c =? 95))%N.

Fixpoint take_while (p : char -> bool) (s : pystr) : pystr :=
  match s with
  | [] => []
  | x :: s' => if p x then x :: take_while p s' else []
  end.

(** [^import\s+([\w.]+)] on one line. *)
Definition import_of_line (l : pystr) : list pystr :=
  if startswith (py "import") l then
    let rest := skipn 6 l in
    match rest with
    | x :: _ =>
        if is_space x then
          match take_while (fun c => is_word c || (c =? 46)%N) (lstrip rest) with
          | [] => []
          | m => [m]
          end
        else []
    | [] => []
    end
  else [].

(** Only the plain [import] lines of Python and Java are recognised. *)
Definition findall (p : import_pattern) (content : pystr) : list pystr :=
  match p with
  | RE_import => flat_map import_of_line (split NL content)
  | _ => []
  end.

(** The elements in the order of their first occurrence. *)
Definition first_seen (xs : list pystr) : list pystr := dict_keys xs.

(** The largest [k] with [10^k <= n], for [n >= 1]. *)
Definition digits_log10 (n : Z) : Q :=
  inject_Z (len (str_of_Z n) - 1).

Definition QUOTE : char := 34%N.

Definition quoted (s : pystr) : pystr := [QUOTE] ++ s ++ [QUOTE].

Definition dumps_languages (d : list (pystr * Z)) : pystr :=
  py "{" ++ join (py ", ") (map (fun kv => quoted (fst kv) ++ py ": " ++ str_of_Z (snd kv)) d)
  ++ py "}".

Definition dumps_links (ls : list DepLink) : pystr :=
  py "[" ++ join (py ", ")
    (map (fun l => py "{" ++ quoted (source l) ++ py ", " ++ quoted (target l)
                   ++ py ", " ++ quoted (raw l) ++ py "}") ls)
  ++ py "]".

Definition rt : Runtime :=
  {| str_lower := lower_ascii;
     re_findall := findall;
     list_of_set := first_seen;
     math_log10 := digits_log10;
     json_dumps_languages := dumps_languages;
     json_dumps_links := dumps_links;
     isoformat := fun t => str_of_Z (Qfloor t) |}.

(** The same interpreter started with another hash seed: its sets iterate in
    the opposite order. *)
Definition rt' : Runtime :=
  {| str_lower := lower_ascii;
     re_findall := findall;
     list_of_set := fun xs => rev (first_seen xs);
     math_log10 := digits_log10;
     json_dumps_languages := dumps_languages;
     json_dumps_links := dumps_links;
     isoformat := fun t => str_of_Z (Qfloor t) |}.

Definition file (text : string) : File :=
  {| f_stat := Some {| st_size := len (py text); st_mtime := 0 |};
     f_text := Some (py text) |}.

Definition proc : Processor :=
  {| root := py "/srv/repo"; max_files := 120; include_tests := false; depth := 6 |}.

Definition LF : string := String (ascii_of_nat 10) EmptyString.

(** [main.py] and [utils.py], which imports it, next to an ignored
    directory. *)
Definition fs : Dir :=
  MkDir [ (py "utils.py", file ("import os" ++ LF ++ "import main" ++ LF ++ "x = 1"));
          (py "main.py", file ("if x:" ++ LF ++ "    for y in z:" ++ LF ++ "        pass"));
          (py "notes.bin", file "zz") ]
        [ (py "node_modules", MkDir [ (py "index.js", file "x") ] []);
          (py "lib", MkDir [ (py "os.py", file "import sys" ) ] []) ].

(** [fs] as another listing gives it. *)
Definition fs' : Dir :=
  MkDir [ (py "main.py", file ("if x:" ++ LF ++ "    for y in z:" ++ LF ++ "        pass"));
          (py "notes.bin", file "zz");
          (py "utils.py", file ("import os" ++ LF ++ "import main" ++ LF ++ "x = 1")) ]
        [ (py "lib", MkDir [ (py "os.py", file "import sys" ) ] []);
          (py "node_modules", MkDir [ (py "index.js", file "x") ] []) ].



(** A file of [n] letters on one line. *)
Definition big_file (n : Z) : File :=
  {| f_stat := Some {| st_size := n; st_mtime := 0 |};
     f_text := Some (repeat 97%N (Z.to_nat n)) |}.

(** Two long one-line text files next to a short [main.py]: together the
    excerpts do not fit in the payload. *)
Definition big_fs : Dir :=
  MkDir [ (py "big1.txt", big_file 150000);
          (py "big2.txt", big_file 150000);
          (py "main.py", file "x = 1") ] [].

End Demo.

(** * Properties *)

(** ** Strings and lengths *)

Lemma len_nonneg {A : Type} (l : list A) : 0 <= len l.
Proof. unfold len. lia. Qed.

Lemma len_app {A : Type} (a b : list A) : len (a ++ b) = len a + len b.
Proof. unfold len. rewrite length_app. lia. Qed.

Lemma len_cons {A : Type} (x : A) (l : list A) : len (x :: l) = 1 + len l.
Proof. unfold len. simpl length. lia. Qed.

Lemma len_take {A : Type} (n : Z) (l : list A) :
  0 <= n <= len l -> len (take n l) = n.
Proof.
  unfold len, take. intros H. rewrite length_firstn. lia.
Qed.

Lemma len_take_le {A : Type} (n : Z) (l : list A) : len (take n l) <= len l.
Proof. unfold len, take. rewrite length_firstn. lia. Qed.

Lemma char_eqb_eq (a b : char) : char_eqb a b = true <-> a = b.
Proof. apply N.eqb_eq. Qed.

Lemma str_eqb_eq (a b : pystr) : str_eqb a b = true <-> a = b.
Proof.
  revert b. induction a as [|x a IH]; intros [|y b]; simpl; split; intro H;
    try reflexivity; try discriminate.
  - apply andb_true_iff in H. destruct H as [Hx Hab].
    apply char_eqb_eq in Hx. apply IH in Hab. now subst.
  - injection H as -> ->. apply andb_true_iff. split.
    + now apply char_eqb_eq.
    + now apply IH.
Qed.

Lemma str_eqb_refl (a : pystr) : str_eqb a a = true.
Proof. now apply str_eqb_eq. Qed.

Lemma str_eqb_neq (a b : pystr) : str_eqb a b = false <-> a <> b.
Proof.
  split.
  - intros H E. apply str_eqb_eq in E. congruence.
  - intros H. destruct (str_eqb a b) eqn:E; [|reflexivity].
    apply str_eqb_eq in E. contradiction.
Qed.

Lemma str_in_In (x : pystr) (xs : list pystr) : str_in x xs = true <-> In x xs.
Proof.
  unfold str_in. rewrite existsb_exists. split.
  - intros (y & Hy & E). apply str_eqb_eq in E. now subst.
  - intros H. exists x. split; [assumption | apply str_eqb_refl].
Qed.

Lemma split_not_nil (c : char) (s : pystr) : split c s <> [].
Proof.
  destruct s as [|x s]; simpl; [discriminate|].
  destruct (char_eqb x c); [discriminate|].
  destruct (split c s); discriminate.
Qed.

(** ** Sorting *)

Section SortBy.
Context {A : Type} (before : A -> A -> bool).

Lemma insert_by_perm (x : A) (l : list A) :
  Permutation (insert_by before x l) (x :: l).
Proof.
  induction l as [|y l IH]; simpl; [reflexivity|].
  destruct (before y x); [|reflexivity].
  rewrite IH. apply perm_swap.
Qed.

Lemma sort_by_perm (l : list A) : Permutation (sort_by before l) l.
Proof.
  induction l as [|x l IH]; simpl; [reflexivity|].
  rewrite insert_by_perm. now constructor.
Qed.

Lemma sort_by_In (l : list A) (x : A) : In x (sort_by before l) <-> In x l.
Proof.
  split; apply Permutation_in; [|symmetry]; apply sort_by_perm.
Qed.
End SortBy.

Lemma Qltb_lt (a b : Q) : Qltb a b = true <-> (a < b)%Q.
Proof.
  unfold Qltb. rewrite negb_true_iff. split; intros H.
  - apply Qnot_le_lt. intros Hle. apply Qle_bool_iff in Hle. congruence.
  - destruct (Qle_bool b a) eqn:E; [|reflexivity].
    apply Qle_bool_iff in E. exfalso. now apply (Qlt_not_le a b).
Qed.

Lemma Qltb_ge (a b : Q) : Qltb a b = false <-> (b <= a)%Q.
Proof.
  unfold Qltb. rewrite negb_false_iff. apply Qle_bool_iff.
Qed.

Section SortedDesc.
Context {A : Type} (key : A -> Q).

Let desc (a b : A) : Prop := (key b <= key a)%Q.

Lemma insert_desc_sorted (x : A) (l : list A) :
  StronglySorted desc l ->
  StronglySorted desc (insert_by (fun y x => Qltb (key x) (key y)) x l).
Proof.
  induction 1 as [|y l Hs IH Hall]; simpl.
  - constructor; constructor.
  - destruct (Qltb (key x) (key y)) eqn:E.
    + constructor; [assumption|].
      apply Qltb_lt in E.
      eapply Permutation_Forall; [symmetry; apply insert_by_perm|].
      constructor; [apply Qlt_le_weak, E | assumption].
    + apply Qltb_ge in E. constructor.
      * now constructor.
      * constructor; [exact E|].
        eapply Forall_impl; [|exact Hall].
        intros b Hb. unfold desc in *. eapply Qle_trans; eassumption.
Qed.

Lemma sorted_desc_sorted (l : list A) :
  StronglySorted (fun a b => (key b <= key a)%Q) (sorted_desc key l).
Proof.
  unfold sorted_desc. induction l as [|x l IH]; simpl.
  - constructor.
  - now apply insert_desc_sorted.
Qed.

Lemma sorted_desc_perm (l : list A) : Permutation (sorted_desc key l) l.
Proof. apply sort_by_perm. Qed.
End SortedDesc.

(** In a list sorted by descending key, a strictly larger key stands at a
    strictly smaller position. *)
Lemma desc_sorted_rank {A : Type} (key : A -> Q) (l : list A) :
  StronglySorted (fun a b => (key b <= key a)%Q) l ->
  forall (i j : nat) (a b : A),
    nth_error l i = Some a -> nth_error l j = Some b ->
    (key b < key a)%Q -> (i < j)%nat.
Proof.
  induction 1 as [|x l Hs IH Hall]; intros i j a b Hi Hj Hlt.
  - destruct i; discriminate.
  - destruct i as [|i], j as [|j]; cbn [nth_error] in Hi, Hj.
    + injection Hi as ->. injection Hj as ->. exfalso. now apply (Qlt_irrefl (key b)).
    + lia.
    + injection Hj as ->. apply nth_error_In in Hi.
      rewrite Forall_forall in Hall. specialize (Hall a Hi). cbv beta in Hall.
      exfalso. now apply (Qlt_not_le _ _ Hlt).
    + apply -> Nat.succ_lt_mono. eapply IH; eassumption.
Qed.

(** ** An induction principle for the scan *)

Section ScanInd.
Variables (rt : Runtime) (self : Processor) (fs : Dir).
Variable P : ScanState -> Prop.

Hypothesis P_start : P scan_start.
Hypothesis P_file :
  forall (w : WalkEntry) (fn : pystr) (st : ScanState),
    In w (scan_walk rt self fs) ->
    In fn (map fst (w_files w)) ->
    len (meta_list st) < max_files self ->
    P st -> P (scan_file rt self w fn st).

Lemma scan_files_ind (w : WalkEntry) :
  In w (scan_walk rt self fs) ->
  forall (fns : list pystr) (st : ScanState),
    (forall fn, In fn fns -> In fn (map fst (w_files w))) ->
    P st -> P (scan_files rt self w fns st).
Proof.
  intros Hw. induction fns as [|fn fns IH]; intros st Hin Hst; simpl.
  - assumption.
  - destruct (len (meta_list st) >=? max_files self) eqn:E; [assumption|].
    rewrite Z.geb_leb in E. apply Z.leb_gt in E.
    apply IH.
    + intros fn' H. apply Hin. now right.
    + apply P_file; try assumption. apply Hin. now left.
Qed.

Lemma scan_ind : P (scan rt self fs).
Proof.
  unfold scan.
  assert (H : forall ws st,
             (forall w, In w ws -> In w (scan_walk rt self fs)) ->
             P st -> P (fold_left (scan_dir rt self) ws st)).
  { induction ws as [|w ws IH]; intros st Hin Hst; simpl; [assumption|].
    apply IH.
    - intros w' H. apply Hin. now right.
    - unfold scan_dir. apply scan_files_ind.
      + apply Hin. now left.
      + intros fn Hfn. unfold sorted in Hfn. now apply sort_by_In in Hfn.
      + assumption. }
  apply H; [auto | exact P_start].
Qed.
End ScanInd.

(** What [scan_file] does to the state: nothing, or one record and one
    excerpt more. *)
Lemma scan_file_cases (rt : Runtime) (self : Processor) (w : WalkEntry)
    (fn : pystr) (st : ScanState) :
  scan_file rt self w fn st = st \/
  exists (m : FileNodeInfo) (part : pystr) (f : File) (s : Stat),
    meta_list (scan_file rt self w fn st) = meta_list st ++ [m] /\
    code_parts (scan_file rt self w fn st) = code_parts st ++ [part] /\
    assoc fn (w_files w) = Some f /\ f_stat f = Some s /\
    st_size s <= MAX_FILE_BYTES /\
    size_bytes m = st_size s /\
    path m = path_join (w_root w) fn /\
    relative_path m = path_join (w_rel w) fn /\
    hd_error part = Some NL.
Proof.
  unfold scan_file.
  destruct (negb (str_in (str_lower rt (suffix fn)) SUPPORTED_EXTENSIONS)
            && negb (is_special rt fn)); [now left|].
  destruct (assoc fn (w_files w)) as [f|] eqn:Ef; [|now left].
  destruct (f_stat f) as [s|] eqn:Es; [|now left].
  destruct (st_size s >? MAX_FILE_BYTES) eqn:Esz; [now left|].
  destruct (f_text f) as [content|]; [|now left].
  right. do 2 eexists. exists f, s. cbn [meta_list code_parts].
  repeat split; try reflexivity; try assumption.
  rewrite Z.gtb_ltb in Esz. now apply Z.ltb_ge in Esz.
Qed.

Lemma scan_lengths (rt : Runtime) (self : Processor) (fs : Dir) :
  length (meta_list (scan rt self fs)) = length (code_parts (scan rt self fs)).
Proof.
  apply scan_ind; [reflexivity|].
  intros w fn st _ _ _ IH.
  destruct (scan_file_cases rt self w fn st) as [-> | (m & part & f & s & Hm & Hc & _)];
    [assumption|].
  rewrite Hm, Hc, !length_app, IH. reflexivity.
Qed.

(** ** The scan of [Demo.big_fs] *)

Lemma nth_error_nth_lt {A : Type} (l : list A) (n m : nat) (d : A) :
  Nat.ltb m (length l) = true -> (n <= m)%nat -> nth_error l n = Some (nth n l d).
Proof.
  intros H Hn. apply nth_error_nth'. apply Nat.ltb_lt in H. lia.
Qed.

Lemma refutes_sound (rt : Runtime) (remaining : Z) (sf : list (FileNodeInfo * pystr))
    (parts : list pystr) :
  refutes rt remaining sf parts = true ->
  remaining < total_code sf /\
  exists (a b : FileNodeInfo * pystr) (pa pb : pystr),
    nth_error sf 0 = Some a /\ nth_error sf 1 = Some b /\
    (importance rt b < importance rt a)%Q /\
    nth_error parts 0 = Some pa /\ nth_error parts 1 = Some pb /\
    len pa < len pb.
Proof.
  unfold refutes. intros F.
  apply andb_true_iff in F. destruct F as [F F5].
  apply andb_true_iff in F. destruct F as [F F4].
  apply andb_true_iff in F. destruct F as [F F3].
  apply andb_true_iff in F. destruct F as [F1 F2].
  apply Z.ltb_lt in F1, F5. apply Qltb_lt in F4.
  split; [exact F1|].
  exists (nth 0 sf no_pair), (nth 1 sf no_pair), (nth 0 parts []), (nth 1 parts []).
  repeat split; try assumption; eapply nth_error_nth_lt; try eassumption; lia.
Qed.

Lemma big_fs_refutes :
  refutes Demo.rt (remaining_of Demo.rt Demo.proc Demo.big_fs)
    (ranked Demo.rt Demo.proc Demo.big_fs)
    (final_parts (remaining_of Demo.rt Demo.proc Demo.big_fs)
       (ranked Demo.rt Demo.proc Demo.big_fs)) = true.
Proof. vm_compute. reflexivity. Qed.

(** ** The final safety check (C1) *)

Lemma len_PAYLOAD_TRUNCATED : len PAYLOAD_TRUNCATED = 49.
Proof. reflexivity. Qed.

Lemma clip_cases (p : pystr) :
  (len p <= MAX_PAYLOAD_CHARS /\ clip p = p) \/
  (MAX_PAYLOAD_CHARS < len p /\
   clip p = take MAX_PAYLOAD_CHARS p ++ PAYLOAD_TRUNCATED /\
   len (clip p) = MAX_PAYLOAD_CHARS + 49).
Proof.
  unfold clip. destruct (len p >? MAX_PAYLOAD_CHARS) eqn:E.
  - right. apply Z.gtb_lt in E. repeat split; [assumption|].
    rewrite len_app, len_take, len_PAYLOAD_TRUNCATED; [reflexivity|].
    unfold MAX_PAYLOAD_CHARS in *. lia.
  - left. split; [|reflexivity].
    rewrite Z.gtb_ltb in E. apply Z.ltb_ge in E. assumption.
Qed.

(** C1.  The payload that [scan_and_read] returns is never longer than
    [MAX_PAYLOAD_CHARS] plus the 49 characters of the final marker: it is
    within [MAX_PAYLOAD_CHARS], or it is the first [MAX_PAYLOAD_CHARS]
    characters of the assembled text followed by that marker. *)
Theorem payload_length_bounded (rt : Runtime) (self : Processor) (fs : Dir) :
  let payload := fst (fst (scan_and_read rt self fs)) in
  MAX_PAYLOAD_CHARS = 300000 /\
  len payload <= MAX_PAYLOAD_CHARS + 49 /\
  (len payload <= MAX_PAYLOAD_CHARS \/
   exists full, MAX_PAYLOAD_CHARS < len full /\
                payload = take MAX_PAYLOAD_CHARS full ++ PAYLOAD_TRUNCATED /\
                len payload = MAX_PAYLOAD_CHARS + len PAYLOAD_TRUNCATED).
Proof.
  cbv zeta. unfold scan_and_read, payload_of. cbn [fst].
  set (full := _ ++ concat _).
  split; [reflexivity|].
  destruct (clip_cases full) as [[Hle ->] | (Hlt & Hc & Hlen)].
  - split; [lia | now left].
  - split; [lia|]. right. exists full.
    rewrite len_PAYLOAD_TRUNCATED. auto.
Qed.

(** ** The budget of each rank (C2) *)



(** The piece at position [k] of the loop started at rank [i0] with [used0]
    characters spent. *)
Lemma allocate_nth (remaining : Z) (sf : list (FileNodeInfo * pystr)) :
  forall (i0 used0 : Z) (k : nat) (meta : FileNodeInfo) (part : pystr),
    nth_error sf k = Some (meta, part) ->
    nth_error (allocate remaining i0 used0 sf) k =
    Some (let (text, budget) :=
            rank_budget (i0 + Z.of_nat k) part
              (remaining - (used0 + len (concat (firstn k (allocate remaining i0 used0 sf))))) in
          emit meta text budget).
Proof.
  induction sf as [|[m p] sf IH]; intros i0 used0 k meta part Hk.
  - destruct k; discriminate.
  - destruct k as [|k].
    + injection Hk as -> ->. cbn [allocate].
      destruct (rank_budget i0 part (remaining - used0)) as [text budget] eqn:E.
      cbn [nth_error firstn concat]. change (len (@nil char)) with 0.
      rewrite !Z.add_0_r, E. reflexivity.
    + cbn [nth_error] in Hk. cbn [allocate].
      destruct (rank_budget i0 p (remaining - used0)) as [text budget] eqn:E.
      cbn [nth_error firstn concat].
      rewrite (IH (i0 + 1) (used0 + len (emit m text budget)) k meta part Hk).
      rewrite len_app.
      replace (i0 + 1 + Z.of_nat k) with (i0 + Z.of_nat (S k)) by lia.
      rewrite Z.add_assoc. reflexivity.
Qed.


(** Every excerpt that the scan builds starts with a newline. *)
Lemma scanned_parts_start_with_newline (rt : Runtime) (self : Processor) (fs : Dir) :
  Forall (fun part => hd_error part = Some NL) (code_parts (scan rt self fs)).
Proof.
  apply scan_ind; [constructor|].
  intros w fn st _ _ _ IH.
  destruct (scan_file_cases rt self w fn st)
    as [-> | (m & part & f & s & _ & Hc & _ & _ & _ & _ & _ & _ & Hhd)]; [assumption|].
  rewrite Hc. apply Forall_app. split; [assumption|]. now repeat constructor.
Qed.

Lemma ranked_parts_start_with_newline (rt : Runtime) (self : Processor) (fs : Dir)
    (meta : FileNodeInfo) (part : pystr) :
  In (meta, part) (ranked rt self fs) -> hd_error part = Some NL.
Proof.
  intros H. unfold ranked, sorted_files in H.
  apply (Permutation_in _ (sorted_desc_perm _ _)) in H.
  apply in_combine_r in H.
  pose proof (scanned_parts_start_with_newline rt self fs) as Hall.
  rewrite Forall_forall in Hall. now apply Hall.
Qed.

(** The first line of such an excerpt is empty. *)
Lemma first_line_after_newline (part : pystr) :
  hd_error part = Some NL -> hd [] (split NL part) = [].
Proof.
  destruct part as [|x s]; [discriminate|]. intros H. injection H as ->. reflexivity.
Qed.



(** ** The importance order (C3) *)

Lemma map_fst_combine {A B : Type} (l : list A) (l' : list B) :
  length l = length l' -> map fst (combine l l') = l.
Proof.
  revert l'. induction l as [|x l IH]; intros [|y l'] H; simpl in *;
    try reflexivity; try discriminate.
  f_equal. apply IH. lia.
Qed.

Lemma Q_plus_100_neq (q : Q) : ~ (q + 100 == q + 0)%Q.
Proof.
  intros H. apply Qplus_inj_l in H. discriminate.
Qed.

(** C3.  The key under which a (record, excerpt) pair is ranked is the
    complexity score of the record, plus 100 exactly when its relative path
    in lower case contains "main", "app", "index" or "server"; the pairs
    handed to the budgeting are all the pairs of the scan, in descending
    order of that key. *)
Theorem sorted_by_importance (rt : Runtime) (self : Processor) (fs : Dir) :
  let st := scan rt self fs in
  let sf := sorted_files rt st in
  let entry_point (m : FileNodeInfo) :=
    exists e, In e (map py ["main"; "app"; "index"; "server"]%string) /\
              contains e (str_lower rt (relative_path m)) = true in
  (forall x : FileNodeInfo * pystr,
     (entry_point (fst x) <-> importance rt x == complexity_score (fst x) + 100)%Q /\
     (~ entry_point (fst x) <-> importance rt x == complexity_score (fst x) + 0)%Q) /\
  Permutation sf (combine (meta_list st) (code_parts st)) /\
  Permutation (map fst sf) (meta_list st) /\
  StronglySorted (fun a b => (importance rt b <= importance rt a)%Q) sf /\
  fst (fst (scan_and_read rt self fs)) =
  (let head := payload_header rt (summary_of self st) (generate_tree self fs) in
   clip (head ++ concat (final_parts (MAX_PAYLOAD_CHARS - len head) sf))).
Proof.
  cbv zeta. repeat split.
  - intros (e & He & Hc). unfold importance.
    replace (existsb _ ENTRY_POINTS) with true; [reflexivity|].
    symmetry. apply existsb_exists. now exists e.
  - intros H. unfold importance in H.
    destruct (existsb _ ENTRY_POINTS) eqn:E.
    + apply existsb_exists in E. exact E.
    + symmetry in H. now apply Q_plus_100_neq in H.
  - intros Hn. unfold importance.
    destruct (existsb _ ENTRY_POINTS) eqn:E; [|reflexivity].
    exfalso. apply Hn. apply existsb_exists in E. exact E.
  - intros H (e & He & Hc). unfold importance in H.
    replace (existsb _ ENTRY_POINTS) with true in H.
    + now apply Q_plus_100_neq in H.
    + symmetry. apply existsb_exists. now exists e.
  - apply sorted_desc_perm.
  - unfold sorted_files. rewrite sorted_desc_perm.
    rewrite map_fst_combine; [reflexivity | apply scan_lengths].
  - apply sorted_desc_sorted.
Qed.

(** ** Budgeting monotonicity (C4) *)

Lemma tier_cap_antitone (i j : Z) : i <= j -> tier_cap j <= tier_cap i.
Proof.
  intros H. unfold tier_cap.
  destruct (Z.ltb_spec i 5), (Z.ltb_spec j 5), (Z.ltb_spec i 15), (Z.ltb_spec j 15); lia.
Qed.

Lemma len_concat_firstn_mono (parts : list pystr) (i j : nat) :
  (i <= j)%nat -> len (concat (firstn i parts)) <= len (concat (firstn j parts)).
Proof.
  revert i j. induction parts as [|p parts IH]; intros i j Hij.
  - rewrite !firstn_nil. lia.
  - destruct i as [|i].
    + cbn [firstn concat]. apply len_nonneg.
    + destruct j as [|j]; [lia|]. cbn [firstn concat]. rewrite !len_app.
      specialize (IH i j). lia.
Qed.

Lemma rank_budget_ceiling (i : Z) (part : pystr) (left : Z) :
  snd (rank_budget i part left)
  = Z.min (len (fst (rank_budget i part left))) (Z.min (tier_cap i) left).
Proof.
  unfold rank_budget, tier_cap.
  destruct (i <? 5); [reflexivity|]. destruct (i <? 15); reflexivity.
Qed.

(** The claim fails on the scan of [Demo.big_fs]: [main.py] ranks first with
    importance 100 and is emitted whole in 65 characters, while [big1.txt],
    of importance 0, is emitted in 60,019. *)
Lemma emitted_length_not_monotone :
  ~ emitted_length_monotone Demo.rt Demo.proc Demo.big_fs.
Proof.
  intros H.
  destruct (refutes_sound _ _ _ _ big_fs_refutes)
    as (Hover & a & b & pa & pb & Ha & Hb & Hlt & Hpa & Hpb & Hlen).
  specialize (H Hover 0%nat 1%nat a b pa pb Ha Hb Hlt Hpa Hpb).
  lia.
Qed.

(** C4, amended.  If the importance of [a] is strictly greater than that of
    [b], then [a] is ranked before [b], the cap of its tier is at least that
    of [b], and so is what the loop offers it (the cap, or what remains of
    the budget if that is less); the budget of a file is that offer or the
    length of its own text, whichever is smaller. *)
Theorem budget_ceiling_monotone (rt : Runtime) (self : Processor) (fs : Dir)
    (i j : nat) (a b : FileNodeInfo * pystr) :
  nth_error (ranked rt self fs) i = Some a ->
  nth_error (ranked rt self fs) j = Some b ->
  (importance rt b < importance rt a)%Q ->
  let remaining := remaining_of rt self fs in
  let sf := ranked rt self fs in
  (i < j)%nat /\
  tier_cap (Z.of_nat j) <= tier_cap (Z.of_nat i) /\
  budget_ceiling remaining sf j <= budget_ceiling remaining sf i /\
  (forall (k : nat) (m : FileNodeInfo) (part : pystr),
     nth_error sf k = Some (m, part) ->
     let left := remaining - len (concat (firstn k (allocate remaining 0 0 sf))) in
     nth_error (allocate remaining 0 0 sf) k
     = Some (emit m (fst (rank_budget (Z.of_nat k) part left))
                    (Z.min (len (fst (rank_budget (Z.of_nat k) part left)))
                           (budget_ceiling remaining sf k)))).
Proof.
  intros Ha Hb Hlt. cbv zeta.
  assert (Hij : (i < j)%nat).
  { eapply (desc_sorted_rank (importance rt)); try eassumption.
    apply sorted_desc_sorted. }
  split; [exact Hij|]. split; [apply tier_cap_antitone; lia|]. split.
  - unfold budget_ceiling.
    pose proof (tier_cap_antitone (Z.of_nat i) (Z.of_nat j) ltac:(lia)).
    pose proof (len_concat_firstn_mono
                  (allocate (remaining_of rt self fs) 0 0 (ranked rt self fs)) i j ltac:(lia)).
    lia.
  - intros k m part Hk.
    rewrite (allocate_nth _ _ 0 0 k m part Hk). rewrite !Z.add_0_l.
    set (left := _ - len _).
    pose proof (rank_budget_ceiling (Z.of_nat k) part left) as Hc.
    destruct (rank_budget (Z.of_nat k) part left) as [text budget].
    cbn [fst snd] in *. unfold budget_ceiling. fold left. now rewrite Hc.
Qed.

Lemma budget_ceiling_monotone_witness :
  let sf := ranked Demo.rt Demo.proc Demo.fs in
  (importance Demo.rt (nth 1 sf no_pair) < importance Demo.rt (nth 0 sf no_pair))%Q /\
  (0 < 1)%nat /\
  budget_ceiling (remaining_of Demo.rt Demo.proc Demo.fs) sf 1
  <= budget_ceiling (remaining_of Demo.rt Demo.proc Demo.fs) sf 0.
Proof.
  cbv zeta.
  set (sf := ranked Demo.rt Demo.proc Demo.fs).
  assert (Hlen : Nat.ltb 1 (length sf) = true) by (vm_compute; reflexivity).
  assert (Hlt : (importance Demo.rt (nth 1 sf no_pair)
                 < importance Demo.rt (nth 0 sf no_pair))%Q)
    by (vm_compute; reflexivity).
  split; [exact Hlt|].
  pose proof (budget_ceiling_monotone Demo.rt Demo.proc Demo.fs 0 1 _ _
                (nth_error_nth_lt sf 0 1 no_pair Hlen ltac:(lia))
                (nth_error_nth_lt sf 1 1 no_pair Hlen ltac:(lia))
                Hlt) as H.
  cbv zeta in H. destruct H as (H1 & _ & H3 & _). split; assumption.
Defined.

(** ** The complexity score (C5) *)
















Lemma split_len_pos (c : char) (s : pystr) : 1 <= len (split c s).
Proof.
  pose proof (split_not_nil c s). destruct (split c s); [congruence|].
  rewrite len_cons. pose proof (len_nonneg l). lia.
Qed.



(** ** The file cap and the size ceiling (C6) *)

Lemma assoc_In {V : Type} (k : pystr) (tbl : list (pystr * V)) (v : V) :
  assoc k tbl = Some v -> In (k, v) tbl.
Proof.
  induction tbl as [|[k' v'] tbl IH]; simpl; [discriminate|].
  destruct (str_eqb k k') eqn:E.
  - intros H. injection H as ->. apply str_eqb_eq in E. subst. now left.
  - intros H. right. now apply IH.
Qed.

Lemma dict_get_In {V : Type} (k : pystr) (tbl : list (pystr * list V)) (x : V) :
  In x (dict_get tbl k []) -> exists v, In (k, v) tbl /\ In x v.
Proof.
  unfold dict_get. destruct (assoc k tbl) as [v|] eqn:E; [|intros []].
  intros H. exists v. split; [now apply assoc_In | assumption].
Qed.

(** The files of every directory that a walk yields are files of the tree,
    under the path the scan opens them with. *)
Lemma os_walk_files (prune : pystr -> list pystr -> list pystr) (d : Dir) :
  forall (top rel : pystr) (w : WalkEntry),
    In w (os_walk prune top rel d) ->
    forall (fn : pystr) (f : File),
      In (fn, f) (w_files w) -> In (path_join (w_root w) fn, f) (tree_files top d).
Proof.
  induction d as [files subdirs IH] using Dir_nested_ind.
  intros top rel w Hw fn f Hf. cbn [os_walk tree_files] in *.
  destruct Hw as [<- | Hw].
  - apply in_or_app. left. cbn [w_root w_files] in *.
    apply in_map_iff. exists (fn, f). auto.
  - apply in_or_app. right.
    apply in_flat_map in Hw. destruct Hw as (dname & _ & Hw).
    apply dict_get_In in Hw. destruct Hw as (ws & Hin & Hw).
    apply in_map_iff in Hin. destruct Hin as ([dn sub] & E & Hsub).
    injection E as -> <-.
    apply in_flat_map. exists (dname, sub). split; [assumption|].
    rewrite Forall_forall in IH. apply (IH (dname, sub) Hsub _ _ w Hw fn f Hf).
Qed.

Lemma scan_files_capped (rt : Runtime) (self : Processor) (w : WalkEntry)
    (fns : list pystr) (st : ScanState) :
  max_files self <= len (meta_list st) -> scan_files rt self w fns st = st.
Proof.
  intros H. destruct fns as [|fn fns]; [reflexivity|]. simpl.
  destruct (len (meta_list st) >=? max_files self) eqn:E; [reflexivity|].
  rewrite Z.geb_leb in E. apply Z.leb_gt in E. lia.
Qed.

Lemma scan_file_extends (rt : Runtime) (self : Processor) (w : WalkEntry)
    (fn : pystr) (st : ScanState) :
  exists more, meta_list (scan_file rt self w fn st) = meta_list st ++ more.
Proof.
  destruct (scan_file_cases rt self w fn st) as [-> | (m & part & f & s & Hm & _)].
  - exists []. now rewrite app_nil_r.
  - exists [m]. exact Hm.
Qed.

Lemma scan_files_extends (rt : Runtime) (self : Processor) (w : WalkEntry)
    (fns : list pystr) :
  forall st, exists more, meta_list (scan_files rt self w fns st) = meta_list st ++ more.
Proof.
  induction fns as [|fn fns IH]; intros st; simpl.
  - exists []. now rewrite app_nil_r.
  - destruct (len (meta_list st) >=? max_files self).
    + exists []. now rewrite app_nil_r.
    + destruct (IH (scan_file rt self w fn st)) as (more2 & ->).
      destruct (scan_file_extends rt self w fn st) as (more1 & ->).
      exists (more1 ++ more2). now rewrite app_assoc.
Qed.

Lemma scan_dirs_extend (rt : Runtime) (self : Processor) (ws : list WalkEntry) :
  forall st, exists more,
      meta_list (fold_left (scan_dir rt self) ws st) = meta_list st ++ more.
Proof.
  induction ws as [|w ws IH]; intros st; simpl.
  - exists []. now rewrite app_nil_r.
  - destruct (IH (scan_dir rt self st w)) as (more2 & ->).
    destruct (scan_files_extends rt self w (sorted (map fst (w_files w))) st) as (more1 & E).
    unfold scan_dir. rewrite E. exists (more1 ++ more2). now rewrite app_assoc.
Qed.

(** C6.  With a cap that is not negative, the scan returns at most
    [max_files] records; every record carries the size of a file of the tree
    as [stat] reports it, at most 200,000 bytes; the records held after any
    number of directories are a prefix of the records returned; a directory
    visited once the cap is reached leaves the state as it is; and so does a
    file of more than 200,000 bytes. *)
Theorem scan_caps (rt : Runtime) (self : Processor) (fs : Dir) :
  0 <= max_files self ->
  let files := snd (fst (scan_and_read rt self fs)) in
  len files <= max_files self /\
  Forall (fun m => size_bytes m <= 200000 /\
                   exists (f : File) (s : Stat),
                     In (path m, f) (tree_files (root self) fs) /\
                     f_stat f = Some s /\ st_size s = size_bytes m) files /\
  (forall n : nat, exists more,
       files = meta_list (fold_left (scan_dir rt self)
                            (firstn n (scan_walk rt self fs)) scan_start) ++ more) /\
  (forall (st : ScanState) (w : WalkEntry),
      max_files self <= len (meta_list st) -> scan_dir rt self st w = st) /\
  (forall (st : ScanState) (w : WalkEntry) (fn : pystr) (f : File) (s : Stat),
      assoc fn (w_files w) = Some f -> f_stat f = Some s -> 200000 < st_size s ->
      scan_file rt self w fn st = st).
Proof.
  intros Hcap. cbv zeta. unfold scan_and_read. cbn [fst snd].
  split; [|split; [|split; [|split]]].
  - apply scan_ind; [exact Hcap|].
    intros w fn st _ _ Hlt IH.
    destruct (scan_file_cases rt self w fn st) as [-> | (m & part & f & s & Hm & _)];
      [assumption|].
    rewrite Hm, len_app. change (len [m]) with 1. lia.
  - apply scan_ind; [constructor|].
    intros w fn st Hw _ _ IH.
    destruct (scan_file_cases rt self w fn st)
      as [-> | (m & part & f & s & Hm & _ & Hf & Hs & Hsz & Hsize & Hpath & _)];
      [assumption|].
    rewrite Hm. apply Forall_app. split; [assumption|].
    constructor; [|constructor]. split.
    + rewrite Hsize. exact Hsz.
    + exists f, s. repeat split; try assumption; [|now symmetry].
      rewrite Hpath. eapply os_walk_files; [exact Hw|]. now apply assoc_In.
  - intros n. unfold scan.
    set (ws := scan_walk rt self fs).
    assert (E : fold_left (scan_dir rt self) ws scan_start
                = fold_left (scan_dir rt self) (skipn n ws)
                    (fold_left (scan_dir rt self) (firstn n ws) scan_start)).
    { rewrite <- fold_left_app, firstn_skipn. reflexivity. }
    rewrite E. apply scan_dirs_extend.
  - intros st w H. unfold scan_dir. now apply scan_files_capped.
  - intros st w fn f s Hf Hs Hbig. unfold scan_file.
    destruct (negb (str_in (str_lower rt (suffix fn)) SUPPORTED_EXTENSIONS)
              && negb (is_special rt fn)); [reflexivity|].
    rewrite Hf, Hs.
    replace (st_size s >? MAX_FILE_BYTES) with true; [reflexivity|].
    symmetry. apply Z.gtb_lt. exact Hbig.
Qed.

Lemma scan_caps_witness :
  0 <= max_files Demo.proc /\
  len (snd (fst (scan_and_read Demo.rt Demo.proc Demo.fs))) <= max_files Demo.proc.
Proof.
  split; [vm_compute; discriminate|].
  apply (scan_caps Demo.rt Demo.proc Demo.fs). vm_compute. discriminate.
Defined.

(** ** Dependency links (C7) *)

Lemma dict_keys_In (keys : list pystr) (k : pystr) : In k (dict_keys keys) -> In k keys.
Proof.
  unfold dict_keys.
  assert (H : forall acc, In k (fold_left (fun acc k' => if str_in k' acc then acc else acc ++ [k'])
                                  keys acc) -> In k acc \/ In k keys).
  { induction keys as [|x keys IH]; intros acc Hin; simpl in *; [now left|].
    apply IH in Hin. destruct Hin as [Hin | Hin]; [|now right; right].
    destruct (str_in x acc); [now left|].
    apply in_app_or in Hin. destruct Hin as [Hin | [<- | []]]; [now left|].
    right. now left. }
  intros Hin. apply H in Hin. destruct Hin as [[] | Hin]. exact Hin.
Qed.

Lemma first_match_In (candidates all_files : list pystr) (f : pystr) :
  first_match candidates all_files = Some f -> In f all_files.
Proof.
  induction candidates as [|c rest IH]; simpl; [discriminate|].
  destruct (find _ all_files) as [g|] eqn:E.
  - intros H. injection H as <-. apply find_some in E. tauto.
  - exact IH.
Qed.

Lemma link_wanted_Some (tgt : option pystr) (rel t : pystr) :
  link_wanted tgt rel = Some t -> tgt = Some t /\ t <> rel.
Proof.
  unfold link_wanted. destruct tgt as [[|x u]|]; try discriminate.
  destruct (str_eqb (x :: u) rel) eqn:E; [discriminate|].
  intros H. injection H as <-. split; [reflexivity|]. now apply str_eqb_neq.
Qed.

Lemma link_of_In (keys : list pystr) (m : FileNodeInfo) (imp : pystr) (l : DepLink) :
  In l (link_of keys m imp) ->
  source l = relative_path m /\ raw l = imp /\
  _resolve_import imp keys = Some (target l) /\
  target l <> relative_path m /\ In (target l) keys.
Proof.
  unfold link_of.
  destruct (link_wanted (_resolve_import imp keys) (relative_path m)) as [t|] eqn:E;
    [|intros []].
  intros [<- | []]. cbn [source target raw].
  apply link_wanted_Some in E. destruct E as [E Hne].
  repeat split; try assumption.
  unfold _resolve_import in E. now apply first_match_In in E.
Qed.

(** C7.  Every dependency link of a scan joins two different relative paths,
    both found among the returned records; it comes from an import of the
    record at its source, and that import resolves to its target.  An import
    that resolves to nothing gives no link. *)
Theorem links_well_formed (rt : Runtime) (self : Processor) (fs : Dir) :
  let files := snd (fst (scan_and_read rt self fs)) in
  let links := sm_dependency_links (snd (scan_and_read rt self fs)) in
  let paths := map relative_path files in
  Forall (fun l =>
            source l <> target l /\ In (source l) paths /\ In (target l) paths /\
            exists m, In m files /\ source l = relative_path m /\
                      In (raw l) (imports m) /\
                      _resolve_import (raw l) (all_rels files) = Some (target l)) links /\
  links = flat_map (fun m => flat_map (link_of (all_rels files) m) (imports m)) files /\
  (forall (m : FileNodeInfo) (imp : pystr),
      _resolve_import imp (all_rels files) = None -> link_of (all_rels files) m imp = []).
Proof.
  cbv zeta. unfold scan_and_read. cbn [fst snd summary_of sm_dependency_links].
  set (ms := meta_list (scan rt self fs)).
  split; [|split].
  - apply Forall_forall. intros l Hl. unfold dep_links in Hl.
    apply in_flat_map in Hl. destruct Hl as (m & Hm & Hl).
    unfold links_of in Hl. apply in_flat_map in Hl. destruct Hl as (imp & Himp & Hl).
    apply link_of_In in Hl. destruct Hl as (Hs & Hr & Hres & Hne & Hk).
    unfold all_rels in Hk. apply dict_keys_In in Hk.
    repeat split.
    + rewrite Hs. intros E. apply Hne. now symmetry.
    + rewrite Hs. now apply in_map.
    + exact Hk.
    + exists m. subst imp. repeat split; assumption.
  - reflexivity.
  - intros m imp H. unfold link_of. now rewrite H.
Qed.

(** ** Determinism (C8) *)

(** *** The order of strings *)

Lemma str_ltb_irrefl (a : pystr) : str_ltb a a = false.
Proof.
  induction a as [|x a IH]; simpl; [reflexivity|].
  rewrite N.ltb_irrefl, N.eqb_refl, IH. reflexivity.
Qed.

Lemma str_ltb_cons (x y : char) (a b : pystr) :
  str_ltb (x :: a) (y :: b) = true <-> (x < y)%N \/ (x = y /\ str_ltb a b = true).
Proof.
  simpl. rewrite orb_true_iff, andb_true_iff, N.ltb_lt, N.eqb_eq. reflexivity.
Qed.

Lemma str_ltb_trans (a : pystr) :
  forall b c, str_ltb a b = true -> str_ltb b c = true -> str_ltb a c = true.
Proof.
  induction a as [|x a IH]; intros [|y b] [|z c] Hab Hbc; try discriminate; try reflexivity.
  apply str_ltb_cons in Hab, Hbc. apply str_ltb_cons.
  destruct Hab as [Hab | [-> Hab]], Hbc as [Hbc | [-> Hbc]].
  - left. lia.
  - now left.
  - now left.
  - right. split; [reflexivity|]. eapply IH; eassumption.
Qed.

Lemma str_ltb_asym (a b : pystr) : str_ltb a b = true -> str_ltb b a = false.
Proof.
  intros H. destruct (str_ltb b a) eqn:E; [|reflexivity].
  pose proof (str_ltb_trans a b a H E) as C. rewrite str_ltb_irrefl in C. discriminate.
Qed.

Lemma str_ltb_antisym (a : pystr) :
  forall b, str_ltb a b = false -> str_ltb b a = false -> a = b.
Proof.
  induction a as [|x a IH]; intros [|y b] Hab Hba; try discriminate; [reflexivity|].
  simpl in Hab, Hba.
  apply orb_false_iff in Hab, Hba. destruct Hab as [H1 H2], Hba as [H3 H4].
  apply N.ltb_ge in H1, H3. assert (x = y) by lia. subst y.
  rewrite N.eqb_refl in H2, H4. simpl in H2, H4. f_equal. now apply IH.
Qed.

Lemma str_le_trans (a b c : pystr) :
  str_ltb b a = false -> str_ltb c b = false -> str_ltb c a = false.
Proof.
  intros Hab Hbc. destruct (str_ltb c a) eqn:E; [|reflexivity].
  destruct (str_ltb a b) eqn:E1.
  - pose proof (str_ltb_trans c a b E E1). congruence.
  - assert (a = b) by now apply str_ltb_antisym. subst. congruence.
Qed.

(** *** A sort gives one result for all the orders of its input *)

Section SortUnique.
Context {A : Type} (lt : A -> A -> bool).

Let le (x y : A) : Prop := lt y x = false.

Hypothesis lt_asym : forall x y, lt x y = true -> lt y x = false.
Hypothesis le_trans : forall x y z, le x y -> le y z -> le x z.
Hypothesis le_antisym : forall x y, le x y -> le y x -> x = y.

Lemma insert_by_sorted (x : A) (l : list A) :
  StronglySorted le l -> StronglySorted le (insert_by lt x l).
Proof.
  induction 1 as [|y l Hs IH Hall]; simpl.
  - constructor; constructor.
  - destruct (lt y x) eqn:E.
    + constructor; [assumption|].
      eapply Permutation_Forall; [symmetry; apply insert_by_perm|].
      constructor; [now apply lt_asym | assumption].
    + constructor; [now constructor|].
      constructor; [exact E|].
      eapply Forall_impl; [|exact Hall].
      intros z Hz. now apply (le_trans x y z).
Qed.

Lemma sort_by_sorted (l : list A) : StronglySorted le (sort_by lt l).
Proof.
  induction l as [|x l IH]; simpl; [constructor | now apply insert_by_sorted].
Qed.

Lemma sorted_unique (l : list A) :
  forall l', StronglySorted le l -> StronglySorted le l' -> Permutation l l' -> l = l'.
Proof.
  induction l as [|x r IH]; intros l' Hs Hs' Hp.
  - apply Permutation_nil in Hp. now subst.
  - destruct l' as [|y r'].
    + symmetry in Hp. apply Permutation_nil in Hp. discriminate.
    + inversion Hs as [|? ? Hr Hx]; subst. inversion Hs' as [|? ? Hr' Hy]; subst.
      rewrite Forall_forall in Hx, Hy.
      assert (E : x = y).
      { assert (Hin : In x (y :: r')) by (eapply Permutation_in; [exact Hp | now left]).
        assert (Hin' : In y (x :: r))
          by (eapply Permutation_in; [symmetry; exact Hp | now left]).
        destruct Hin as [-> | Hin]; [reflexivity|].
        destruct Hin' as [-> | Hin']; [reflexivity|].
        apply le_antisym; [now apply Hx | now apply Hy]. }
      subst y. f_equal. apply IH; try assumption.
      now apply Permutation_cons_inv in Hp.
Qed.

Lemma sort_by_canonical (l l' : list A) :
  Permutation l l' -> sort_by lt l = sort_by lt l'.
Proof.
  intros Hp. apply sorted_unique; try apply sort_by_sorted.
  rewrite !sort_by_perm. exact Hp.
Qed.
End SortUnique.

Lemma sorted_canonical (l l' : list pystr) : Permutation l l' -> sorted l = sorted l'.
Proof.
  apply sort_by_canonical.
  - apply str_ltb_asym.
  - intros x y z Hxy Hyz. now apply (str_le_trans x y z).
  - intros x y Hxy Hyx. now apply str_ltb_antisym.
Qed.

Lemma Permutation_filter {A : Type} (f : A -> bool) (l l' : list A) :
  Permutation l l' -> Permutation (filter f l) (filter f l').
Proof.
  induction 1 as [|x l l' _ IH|x y l|l l' l'' _ IH1 _ IH2]; simpl.
  - constructor.
  - destruct (f x); [now constructor | assumption].
  - destruct (f x), (f y); try reflexivity. apply perm_swap.
  - now transitivity (filter f l').
Qed.

(** *** Looking a name up in a permuted table *)

Lemma assoc_None {V : Type} (k : pystr) (tbl : list (pystr * V)) :
  assoc k tbl = None <-> ~ In k (map fst tbl).
Proof.
  induction tbl as [|[k' v] tbl IH]; simpl.
  - tauto.
  - destruct (str_eqb k k') eqn:E.
    + apply str_eqb_eq in E. subst. split; [discriminate | tauto].
    + apply str_eqb_neq in E. rewrite IH. split; [intros H [C|C]; congruence | tauto].
Qed.

Lemma assoc_perm {V : Type} (k : pystr) (l l' : list (pystr * V)) :
  Permutation l l' -> NoDup (map fst l) -> assoc k l = assoc k l'.
Proof.
  induction 1 as [|[k1 v1] l l' Hp IH|[k1 v1] [k2 v2] l|l l' l'' Hp1 IH1 Hp2 IH2];
    intros Hnd; simpl in *.
  - reflexivity.
  - inversion Hnd; subst. destruct (str_eqb k k1); [reflexivity | now apply IH].
  - inversion Hnd as [|? ? Hnot _]; subst.
    destruct (str_eqb k k1) eqn:E1, (str_eqb k k2) eqn:E2; try reflexivity.
    apply str_eqb_eq in E1, E2. subst. exfalso. apply Hnot. now left.
  - rewrite IH1 by assumption. apply IH2.
    eapply Permutation_NoDup; [|exact Hnd]. now apply Permutation_map.
Qed.

(** *** The walk of a tree listed in another order *)

Lemma dict_get_below {V : Type} (walk : pystr -> Dir -> list V)
    (subdirs : list (pystr * Dir)) (dname : pystr) :
  dict_get (map (fun entry : pystr * Dir =>
                   let (d, sub) := entry in (d, walk d sub)) subdirs) dname []
  = match assoc dname subdirs with
    | Some sub => walk dname sub
    | None => []
    end.
Proof.
  unfold dict_get. induction subdirs as [|[d sub] subdirs IH]; simpl; [reflexivity|].
  destruct (str_eqb dname d) eqn:E; [|exact IH].
  apply str_eqb_eq in E. now subst.
Qed.

Lemma Forall2_flat_map {A B C : Type} (R : B -> C -> Prop)
    (f : A -> list B) (g : A -> list C) (l : list A) :
  (forall x, Forall2 R (f x) (g x)) -> Forall2 R (flat_map f l) (flat_map g l).
Proof.
  intros H. induction l as [|x l IH]; simpl; [constructor|].
  apply Forall2_app; [apply H | exact IH].
Qed.

Lemma os_walk_same (prune : pystr -> list pystr -> list pystr) :
  (forall top l l', Permutation l l' -> prune top l = prune top l') ->
  forall d d', same_tree d d' -> unique_names d ->
  forall top rel, Forall2 same_entry (os_walk prune top rel d) (os_walk prune top rel d').
Proof.
  intros Hprune d d' Hsame.
  induction Hsame as [files files' subdirs subdirs' Hfiles Hnames Hsub IH].
  intros Hu top rel. inversion Hu as [? ? Hnd Husub]; subst.
  cbn [os_walk]. constructor.
  - repeat split; assumption.
  - rewrite (Hprune top _ _ Hnames).
    apply Forall2_flat_map. intros dname.
    rewrite (dict_get_below
               (fun d sub => os_walk prune (path_join top d) (path_join rel d) sub)).
    rewrite (dict_get_below
               (fun d sub => os_walk prune (path_join top d) (path_join rel d) sub)).
    destruct (assoc dname subdirs) as [sub|] eqn:E, (assoc dname subdirs') as [sub'|] eqn:E'.
    + apply assoc_In in E, E'. apply (IH dname sub sub' E E'). eapply Husub; eassumption.
    + exfalso. apply assoc_None in E'. apply E'. apply assoc_In in E.
      eapply Permutation_in; [exact Hnames|]. apply in_map_iff. now exists (dname, sub).
    + exfalso. apply assoc_None in E. apply E. apply assoc_In in E'.
      eapply Permutation_in; [symmetry; exact Hnames|]. apply in_map_iff.
      now exists (dname, sub').
    + constructor.
Qed.

Lemma scan_file_same (rt : Runtime) (self : Processor) (w w' : WalkEntry)
    (fn : pystr) (st : ScanState) :
  same_entry w w' -> scan_file rt self w fn st = scan_file rt self w' fn st.
Proof.
  intros (Hroot & Hrel & Hperm & Hnd). unfold scan_file.
  rewrite Hroot, Hrel, (assoc_perm fn _ _ Hperm Hnd). reflexivity.
Qed.

Lemma scan_dir_same (rt : Runtime) (self : Processor) (w w' : WalkEntry) (st : ScanState) :
  same_entry w w' -> scan_dir rt self st w = scan_dir rt self st w'.
Proof.
  intros Hw. unfold scan_dir.
  destruct Hw as (Hroot & Hrel & Hperm & Hnd).
  rewrite (sorted_canonical _ _ (Permutation_map fst Hperm)).
  generalize (sorted (map fst (w_files w'))). intros fns. revert st.
  induction fns as [|fn fns IH]; intros st; simpl; [reflexivity|].
  destruct (len (meta_list st) >=? max_files self); [reflexivity|].
  rewrite (scan_file_same rt self w w' fn st) by (repeat split; assumption).
  apply IH.
Qed.

Lemma fold_left_same {S A : Type} (R : A -> A -> Prop) (f : S -> A -> S) (l l' : list A) :
  Forall2 R l l' -> (forall s x x', R x x' -> f s x = f s x') ->
  forall s, fold_left f l s = fold_left f l' s.
Proof.
  intros H Hf. induction H as [|x x' l l' Hx _ IH]; intros s; simpl; [reflexivity|].
  rewrite (Hf s x x' Hx). apply IH.
Qed.

Lemma flat_map_same {A B : Type} (R : A -> A -> Prop) (f : A -> list B) (l l' : list A) :
  Forall2 R l l' -> (forall x x', R x x' -> f x = f x') -> flat_map f l = flat_map f l'.
Proof.
  intros H Hf. induction H as [|x x' l l' Hx _ IH]; simpl; [reflexivity|].
  now rewrite (Hf x x' Hx), IH.
Qed.

Lemma scan_prune_perm (rt : Runtime) (self : Processor) (top : pystr) (l l' : list pystr) :
  Permutation l l' -> scan_prune rt self top l = scan_prune rt self top l'.
Proof.
  intros H. unfold scan_prune.
  now rewrite (sorted_canonical _ _ (Permutation_filter _ _ _ H)).
Qed.

Lemma tree_prune_perm (self : Processor) (top : pystr) (l l' : list pystr) :
  Permutation l l' -> tree_prune self top l = tree_prune self top l'.
Proof.
  intros H. unfold tree_prune.
  now rewrite (sorted_canonical _ _ (Permutation_filter _ _ _ H)).
Qed.

Lemma scan_same (rt : Runtime) (self : Processor) (fs fs' : Dir) :
  unique_names fs -> same_tree fs fs' -> scan rt self fs = scan rt self fs'.
Proof.
  intros Hu Hs. unfold scan, scan_walk.
  apply (fold_left_same same_entry).
  - apply os_walk_same; try assumption. apply scan_prune_perm.
  - intros st w w'. apply scan_dir_same.
Qed.

Lemma generate_tree_same (self : Processor) (fs fs' : Dir) :
  unique_names fs -> same_tree fs fs' -> generate_tree self fs = generate_tree self fs'.
Proof.
  intros Hu Hs. unfold generate_tree. f_equal.
  apply (flat_map_same same_entry).
  - apply os_walk_same; try assumption. apply tree_prune_perm.
  - intros w w' (Hroot & _ & Hperm & _). unfold tree_lines.
    now rewrite Hroot, (sorted_canonical _ _ (Permutation_map fst Hperm)).
Qed.

(** *** Two interpreters *)

Lemma dict_keys_spec (keys : list pystr) :
  NoDup (dict_keys keys) /\ (forall k, In k (dict_keys keys) <-> In k keys).
Proof.
  unfold dict_keys.
  assert (H : forall acc, NoDup acc ->
            let r := fold_left (fun acc k => if str_in k acc then acc else acc ++ [k]) keys acc in
            NoDup r /\ (forall k, In k r <-> In k acc \/ In k keys)).
  { induction keys as [|x keys IH]; intros acc Hnd; cbn [fold_left].
    - split; [assumption|]. intros k. simpl. tauto.
    - destruct (str_in x acc) eqn:E.
      + destruct (IH acc Hnd) as [H1 H2]. split; [assumption|].
        intros k. rewrite H2. apply str_in_In in E. simpl.
        split; [tauto|]. intros [H | [<- | H]]; tauto.
      + assert (Hx : ~ In x acc).
        { intros C. apply str_in_In in C. congruence. }
        destruct (IH (acc ++ [x])) as [H1 H2].
        { apply NoDup_app; [assumption | repeat constructor; intros [] |].
          intros y Hy [<- | []]. contradiction. }
        split; [assumption|]. intros k. rewrite H2, in_app_iff. simpl. tauto. }
  destruct (H [] (NoDup_nil _)) as [H1 H2]. split; [exact H1|].
  intros k. rewrite H2. simpl. tauto.
Qed.

Lemma demo_set_order : set_order_ok Demo.rt.
Proof. intros xs. apply dict_keys_spec. Qed.

Lemma demo_set_order' : set_order_ok Demo.rt'.
Proof.
  intros xs. cbn [list_of_set Demo.rt']. unfold Demo.first_seen.
  destruct (dict_keys_spec xs) as [H1 H2]. split.
  - eapply Permutation_NoDup; [apply Permutation_rev | exact H1].
  - intros x. rewrite <- in_rev. apply H2.
Qed.

(** The claim fails across two interpreters whose sets iterate in different
    orders: the imports of [utils.py] come as [os], [main] in one and as
    [main], [os] in the other. *)
Lemma scan_not_deterministic : ~ scan_deterministic.
Proof.
  intros H.
  destruct (H Demo.rt Demo.rt' Demo.proc Demo.fs) as [E _].
  - repeat split; reflexivity.
  - exact demo_set_order.
  - exact demo_set_order'.
  - apply (f_equal (map imports)) in E. vm_compute in E. discriminate E.
Qed.

(** C8, amended.  In one interpreter, two scans of a directory whose files
    have distinct names within each directory return the same payload, the
    same records in the same order and the same summary, whatever the order
    in which the operating system lists the entries. *)
Theorem scan_deterministic_in_one_interpreter (rt : Runtime) (self : Processor)
    (fs fs' : Dir) :
  unique_names fs -> same_tree fs fs' ->
  scan_and_read rt self fs = scan_and_read rt self fs'.
Proof.
  intros Hu Hs. unfold scan_and_read, payload_of.
  rewrite (scan_same rt self fs fs' Hu Hs), (generate_tree_same self fs fs' Hu Hs).
  reflexivity.
Qed.

Lemma pair_eq_inv {A B : Type} (a c : A) (b d : B) : (a, b) = (c, d) -> a = c /\ b = d.
Proof. intros H. now injection H. Qed.

Lemma demo_unique_names : unique_names Demo.fs.
Proof.
  constructor.
  - cbv. repeat constructor; cbv; intuition discriminate.
  - intros dname sub [E | [E | []]]; apply pair_eq_inv in E; destruct E as [_ <-];
      (constructor; [cbv; repeat constructor; cbv; intuition discriminate | intros ? ? []]).
Qed.

Lemma demo_same_tree : same_tree Demo.fs Demo.fs'.
Proof.
  constructor.
  - apply (Permutation_cons_append
             [(py "main.py", _); (py "notes.bin", _)] (py "utils.py", _)).
  - apply perm_swap.
  - intros dname sub sub' [E | [E | []]] [E' | [E' | []]];
      apply pair_eq_inv in E, E'; destruct E as [<- <-], E' as [E' <-];
      try (cbv in E'; discriminate E');
      (constructor; [reflexivity | reflexivity | intros ? ? ? []]).
Qed.

Lemma scan_deterministic_in_one_interpreter_witness :
  unique_names Demo.fs /\ same_tree Demo.fs Demo.fs' /\
  scan_and_read Demo.rt Demo.proc Demo.fs = scan_and_read Demo.rt Demo.proc Demo.fs'.
Proof.
  split; [exact demo_unique_names|]. split; [exact demo_same_tree|].
  exact (scan_deterministic_in_one_interpreter Demo.rt Demo.proc Demo.fs Demo.fs'
           demo_unique_names demo_same_tree).
Defined.

(** ** The empty result (C9) *)




(** ** The depth (C10) *)





(** ** The records of a scan *)

Lemma scan_file_spec (rt : Runtime) (self : Processor) (w : WalkEntry)
    (fn : pystr) (st : ScanState) :
  scan_file rt self w fn st = st \/
  exists (s : Stat) (content : pystr),
    accepted rt w fn s content /\
    meta_list (scan_file rt self w fn st) = meta_list st ++ [record_of rt w fn s content] /\
    lang_stats (scan_file rt self w fn st)
    = dict_add (name (info_of rt fn)) (len (split NL content)) (lang_stats st) /\
    total_lines (scan_file rt self w fn st) = total_lines st + len (split NL content) /\
    total_bytes (scan_file rt self w fn st) = total_bytes st + st_size s.
Proof.
  unfold scan_file, accepted, record_of, info_of.
  destruct (str_in (str_lower rt (suffix fn)) SUPPORTED_EXTENSIONS) eqn:Eext;
    destruct (is_special rt fn) eqn:Esp; cbn [negb andb]; try (now left);
    (destruct (assoc fn (w_files w)) as [f|] eqn:Ef; [|now left];
     destruct (f_stat f) as [s|] eqn:Es; [|now left];
     destruct (st_size s >? MAX_FILE_BYTES) eqn:Esz; [now left|];
     destruct (f_text f) as [content|] eqn:Et; [|now left];
     right; exists s, content; cbn [meta_list lang_stats total_lines total_bytes];
     rewrite Z.gtb_ltb in Esz; apply Z.ltb_ge in Esz;
     repeat split; try reflexivity; try tauto; exists f; auto).
Qed.

(** Every record of a scan is [record_of] an accepted file of a directory
    that the walk yields. *)
Lemma scan_records (rt : Runtime) (self : Processor) (fs : Dir) :
  Forall (fun m => exists (w : WalkEntry) (fn : pystr) (s : Stat) (content : pystr),
              In w (scan_walk rt self fs) /\ In fn (map fst (w_files w)) /\
              accepted rt w fn s content /\ m = record_of rt w fn s content)
         (meta_list (scan rt self fs)).
Proof.
  apply scan_ind; [constructor|].
  intros w fn st Hw Hfn _ IH.
  destruct (scan_file_spec rt self w fn st) as [-> | (s & content & Hacc & Hm & _)];
    [assumption|].
  rewrite Hm. apply Forall_app. split; [assumption|].
  constructor; [|constructor]. exists w, fn, s, content. auto.
Qed.
Lemma known_language_names :
  forallb (fun p : pystr * LangInfo => negb (str_eqb (name (snd p)) (py "Unknown")))
          (LANGUAGE_MAP ++ SPECIAL_FILENAMES ++ [(@nil char, CONFIG_INFO)]) = true.
Proof. vm_compute. reflexivity. Qed.

Lemma dict_get_cases {V : Type} (tbl : list (pystr * V)) (k : pystr) (d : V) :
  (assoc k tbl = None /\ dict_get tbl k d = d) \/
  (exists v, assoc k tbl = Some v /\ In (k, v) tbl /\ dict_get tbl k d = v).
Proof.
  unfold dict_get. destruct (assoc k tbl) as [v|] eqn:E.
  - right. exists v. repeat split. now apply assoc_In.
  - now left.
Qed.

Lemma known_name (p : pystr * LangInfo) :
  In p (LANGUAGE_MAP ++ SPECIAL_FILENAMES ++ [([], CONFIG_INFO)]) ->
  name (snd p) <> py "Unknown".
Proof.
  intros Hp. pose proof known_language_names as H. rewrite forallb_forall in H.
  apply H in Hp. apply negb_true_iff in Hp. now apply str_eqb_neq.
Qed.

(** The language entry of an accepted file. *)
Lemma info_of_accepted (rt : Runtime) (fn : pystr) :
  str_in (str_lower rt (suffix fn)) SUPPORTED_EXTENSIONS = true \/ is_special rt fn = true ->
  (In (str_lower rt (suffix fn)) SUPPORTED_EXTENSIONS ->
   assoc (str_lower rt (suffix fn)) LANGUAGE_MAP = Some (info_of rt fn)) /\
  (~ In (str_lower rt (suffix fn)) SUPPORTED_EXTENSIONS ->
   info_of rt fn = dict_get SPECIAL_FILENAMES fn CONFIG_INFO) /\
  name (info_of rt fn) <> py "Unknown".
Proof.
  intros Hacc. unfold info_of.
  destruct (str_in (str_lower rt (suffix fn)) SUPPORTED_EXTENSIONS) eqn:Eext.
  - rewrite andb_false_r.
    destruct (dict_get_cases LANGUAGE_MAP (str_lower rt (suffix fn)) UNKNOWN_INFO)
      as [[Hnone _] | (v & Hsome & Hin & ->)].
    + exfalso. apply assoc_None in Hnone. apply Hnone. now apply str_in_In.
    + repeat split.
      * intros _. exact Hsome.
      * intros Hn. exfalso. apply Hn. now apply str_in_In.
      * apply (known_name (str_lower rt (suffix fn), v)). rewrite !in_app_iff. now left.
  - destruct Hacc as [Hacc | Hsp]; [discriminate|]. rewrite Hsp. cbn [andb negb].
    repeat split.
    + intros Hin. apply str_in_In in Hin. congruence.
    + destruct (dict_get_cases SPECIAL_FILENAMES fn CONFIG_INFO) as [[_ ->] | (v & _ & Hin & ->)].
      * apply (known_name ([], CONFIG_INFO)). rewrite !in_app_iff. right. right. now left.
      * apply (known_name (fn, v)). rewrite !in_app_iff. right. now left.
Qed.

(** X1.  Every record of a scan is that of a file whose extension in lower
    case is a supported extension or whose name is a special file name.  Its
    language and colour are those of [LANGUAGE_MAP] for the extension when it
    is supported, and otherwise those of [SPECIAL_FILENAMES] for the exact
    name, or "Config"; the language is never "Unknown".  [has_tests] tells
    whether the relative path in lower case contains "test", and the line
    count is at least 1. *)
Theorem records_are_recognized (rt : Runtime) (self : Processor) (fs : Dir) :
  Forall (fun m =>
            exists (w : WalkEntry) (fn : pystr),
              In w (scan_walk rt self fs) /\ In fn (map fst (w_files w)) /\
              path m = path_join (w_root w) fn /\
              relative_path m = path_join (w_rel w) fn /\
              extension m = str_lower rt (suffix fn) /\
              (In (extension m) SUPPORTED_EXTENSIONS \/ is_special rt fn = true) /\
              (In (extension m) SUPPORTED_EXTENSIONS ->
               exists info, assoc (extension m) LANGUAGE_MAP = Some info /\
                            language m = name info /\ language_color m = color info) /\
              (~ In (extension m) SUPPORTED_EXTENSIONS ->
               language m = name (dict_get SPECIAL_FILENAMES fn CONFIG_INFO) /\
               language_color m = color (dict_get SPECIAL_FILENAMES fn CONFIG_INFO)) /\
              language m <> py "Unknown" /\
              has_tests m = contains (py "test") (str_lower rt (relative_path m)) /\
              1 <= line_count m)
         (snd (fst (scan_and_read rt self fs))).
Proof.
  unfold scan_and_read. cbn [fst snd].
  eapply Forall_impl; [|apply scan_records].
  intros m (w & fn & s & content & Hw & Hfn & [Hrec _] & ->).
  exists w, fn. cbn [record_of path relative_path extension language language_color
                     has_tests line_count].
  destruct (info_of_accepted rt fn Hrec) as (Hsup & Hspec & Hknown).
  split; [exact Hw|]. split; [exact Hfn|]. do 3 (split; [reflexivity|]).
  split; [destruct Hrec as [H | H]; [left; now apply str_in_In | now right]|].
  split; [intros Hin; exists (info_of rt fn); auto|].
  split; [intros Hn; rewrite (Hspec Hn); split; reflexivity|].
  split; [exact Hknown|]. split; [reflexivity|]. apply split_len_pos.
Qed.

(** ** The directories that are entered *)




(** ** The totals of the summary *)

Lemma dict_add_get (k k' : pystr) (n : Z) (d : list (pystr * Z)) :
  dict_get (dict_add k n d) k' 0 = dict_get d k' 0 + (if str_eqb k' k then n else 0).
Proof.
  unfold dict_get. induction d as [|[k0 v0] d IH]; simpl.
  - destruct (str_eqb k' k); lia.
  - destruct (str_eqb k k0) eqn:E; simpl.
    + apply str_eqb_eq in E. subst k0.
      destruct (str_eqb k' k); lia.
    + destruct (str_eqb k' k0) eqn:E'; [|exact IH].
      apply str_eqb_eq in E'. subst k0.
      replace (str_eqb k' k) with false; [lia|].
      symmetry. apply str_eqb_neq. intros C. subst. rewrite str_eqb_refl in E. discriminate.
Qed.

Lemma dict_add_keys (k k' : pystr) (n : Z) (d : list (pystr * Z)) :
  In k' (map fst (dict_add k n d)) <-> k' = k \/ In k' (map fst d).
Proof.
  induction d as [|[k0 v0] d IH]; simpl.
  - split; [intros [H | []]; now left | intros [H | []]; now left].
  - destruct (str_eqb k k0) eqn:E; simpl.
    + apply str_eqb_eq in E. subst. intuition congruence.
    + rewrite IH. intuition congruence.
Qed.

Lemma dict_add_NoDup (k : pystr) (n : Z) (d : list (pystr * Z)) :
  NoDup (map fst d) -> NoDup (map fst (dict_add k n d)).
Proof.
  induction d as [|[k0 v0] d IH]; simpl; intros H.
  - constructor; [intros [] | constructor].
  - inversion H as [|? ? Hnot Hnd]; subst.
    destruct (str_eqb k k0) eqn:E; simpl.
    + now constructor.
    + constructor; [|now apply IH].
      rewrite dict_add_keys. intros [C | C]; [|contradiction].
      subst. rewrite str_eqb_refl in E. discriminate.
Qed.




(** ** Hotspots and most connected files *)

Lemma StronglySorted_app_inv {A : Type} (R : A -> A -> Prop) (l1 l2 : list A) :
  StronglySorted R (l1 ++ l2) ->
  StronglySorted R l1 /\ StronglySorted R l2 /\
  (forall a b, In a l1 -> In b l2 -> R a b).
Proof.
  induction l1 as [|x l1 IH]; simpl; intros H.
  - repeat split; [constructor | assumption | intros a b []].
  - inversion H as [|? ? Hs Hall]; subst.
    destruct (IH Hs) as (H1 & H2 & H3). rewrite Forall_forall in Hall.
    repeat split.
    + constructor; [assumption|]. apply Forall_forall. intros y Hy.
      apply Hall. apply in_or_app. now left.
    + assumption.
    + intros a b [<- | Ha] Hb; [apply Hall; apply in_or_app; now right | now apply H3].
Qed.

Lemma StronglySorted_map {A B : Type} (R : B -> B -> Prop) (f : A -> B) (l : list A) :
  StronglySorted (fun a b => R (f a) (f b)) l -> StronglySorted R (map f l).
Proof.
  induction 1 as [|x l Hs IH Hall]; simpl; constructor; [exact IH|].
  apply Forall_forall. intros y Hy. apply in_map_iff in Hy.
  destruct Hy as (z & <- & Hz). rewrite Forall_forall in Hall. now apply Hall.
Qed.

Lemma StronglySorted_impl {A : Type} (R S : A -> A -> Prop) (l : list A) :
  (forall a b, R a b -> S a b) -> StronglySorted R l -> StronglySorted S l.
Proof.
  intros H. induction 1 as [|x l Hs IH Hall]; constructor; [exact IH|].
  eapply Forall_impl; [|exact Hall]. intros b. apply H.
Qed.

(** The first [n] of a list sorted by descending key. *)
Lemma top_of_sorted_desc {A : Type} (key : A -> Q) (l : list A) (n : nat) :
  let top := firstn n (sorted_desc key l) in
  let rest := skipn n (sorted_desc key l) in
  Permutation l (top ++ rest) /\
  length top = Nat.min n (length l) /\
  StronglySorted (fun a b => (key b <= key a)%Q) top /\
  (forall t r, In t top -> In r rest -> (key r <= key t)%Q).
Proof.
  cbv zeta. pose proof (sorted_desc_sorted key l) as Hs.
  pose proof (sorted_desc_perm key l) as Hp.
  rewrite <- (firstn_skipn n (sorted_desc key l)) in Hs.
  apply StronglySorted_app_inv in Hs. destruct Hs as (H1 & _ & H3).
  split; [|split; [|split]].
  - rewrite firstn_skipn. now symmetry.
  - rewrite length_firstn. now rewrite (Permutation_length Hp).
  - exact H1.
  - exact H3.
Qed.

(** X4.  The hotspots of a summary describe the first records, five at most,
    of an arrangement of the records in descending order of complexity: no
    record left out has a greater complexity than a hotspot. *)
Theorem hotspots_are_the_top_five (rt : Runtime) (self : Processor) (fs : Dir) :
  let files := snd (fst (scan_and_read rt self fs)) in
  let sm := snd (scan_and_read rt self fs) in
  exists top rest : list FileNodeInfo,
    Permutation files (top ++ rest) /\
    sm_hotspots sm
    = map (fun f => {| hs_file := relative_path f; hs_complexity := complexity_score f;
                       hs_lines := line_count f; hs_language := language f |}) top /\
    length (sm_hotspots sm) = Nat.min 5 (length files) /\
    StronglySorted (fun a b => (hs_complexity b <= hs_complexity a)%Q) (sm_hotspots sm) /\
    (forall t r, In t top -> In r rest -> (complexity_score r <= complexity_score t)%Q).
Proof.
  cbv zeta. unfold scan_and_read. cbn [fst snd summary_of sm_hotspots].
  set (ms := meta_list (scan rt self fs)).
  destruct (top_of_sorted_desc complexity_score ms 5) as (Hp & Hlen & Hs & Hcross).
  exists (firstn 5 (sorted_desc complexity_score ms)),
         (skipn 5 (sorted_desc complexity_score ms)).
  split; [exact Hp|]. split; [reflexivity|]. split; [|split; [|exact Hcross]].
  - unfold hotspots. now rewrite length_map.
  - unfold hotspots. apply StronglySorted_map. exact Hs.
Qed.

(** What [conn] holds after the links. *)
Lemma conn_spec (links : list DepLink) :
  NoDup (map fst (conn links)) /\
  (forall f, dict_get (conn links) f 0 = degree f links) /\
  (forall f, In f (map fst (conn links)) -> 1 <= degree f links).
Proof.
  unfold conn.
  assert (H : forall (d : list (pystr * Z)) (seen : list DepLink),
             NoDup (map fst d) ->
             (forall f, dict_get d f 0 = degree f seen) ->
             (forall f, In f (map fst d) -> 1 <= degree f seen) ->
             let r := fold_left (fun d l => dict_add (target l) 1 (dict_add (source l) 1 d))
                                links d in
             NoDup (map fst r) /\
             (forall f, dict_get r f 0 = degree f (seen ++ links)) /\
             (forall f, In f (map fst r) -> 1 <= degree f (seen ++ links))).
  { induction links as [|l links IH]; intros d seen Hnd Hget Hin; cbn [fold_left].
    - rewrite app_nil_r. auto.
    - replace (seen ++ l :: links) with ((seen ++ [l]) ++ links)
        by (rewrite <- app_assoc; reflexivity).
      assert (Hdeg : forall f, degree f (seen ++ [l])
                               = degree f seen + (if str_eqb f (source l) then 1 else 0)
                                 + (if str_eqb f (target l) then 1 else 0)).
      { intros f. unfold degree. rewrite !filter_app, !len_app. cbn [filter].
        destruct (str_eqb f (source l)), (str_eqb f (target l)); cbn; lia. }
      apply IH.
      + now do 2 apply dict_add_NoDup.
      + intros f. rewrite !dict_add_get, Hget, Hdeg. lia.
      + intros f Hf. rewrite Hdeg. apply dict_add_keys in Hf.
        destruct Hf as [-> | Hf].
        * rewrite str_eqb_refl. pose proof (len_nonneg (filter (fun l0 => str_eqb (target l) (source l0)) seen)).
          unfold degree.
          pose proof (len_nonneg (filter (fun l0 => str_eqb (target l) (target l0)) seen)).
          destruct (str_eqb (target l) (source l)); lia.
        * apply dict_add_keys in Hf. destruct Hf as [-> | Hf].
          -- rewrite str_eqb_refl. unfold degree.
             pose proof (len_nonneg (filter (fun l0 => str_eqb (source l) (source l0)) seen)).
             pose proof (len_nonneg (filter (fun l0 => str_eqb (source l) (target l0)) seen)).
             destruct (str_eqb (source l) (target l)); lia.
          -- specialize (Hin f Hf).
             destruct (str_eqb f (source l)), (str_eqb f (target l)); lia. }
  destruct (H [] [] (NoDup_nil _)) as (H1 & H2 & H3).
  - intros f. reflexivity.
  - intros f [].
  - cbv zeta in *. cbn [app] in *. auto.
Qed.

Lemma dict_get_In_NoDup {V : Type} (d : list (pystr * V)) (k : pystr) (v default : V) :
  NoDup (map fst d) -> In (k, v) d -> dict_get d k default = v.
Proof.
  unfold dict_get. induction d as [|[k0 v0] d IH]; simpl; intros Hnd Hin; [contradiction|].
  inversion Hnd as [|? ? Hnot Hnd']; subst.
  destruct Hin as [E | Hin].
  - injection E as -> ->. now rewrite str_eqb_refl.
  - destruct (str_eqb k k0) eqn:E; [|now apply IH].
    apply str_eqb_eq in E. subst. exfalso. apply Hnot.
    apply in_map_iff. now exists (k0, v).
Qed.

(** X5.  [most_connected] lists at most five files, each once, in descending
    order of their number of connections; the number given for a file is the
    number of dependency links it is the source of plus the number it is the
    target of, at least 1; and no file left out has more connections than a
    file listed. *)
Theorem most_connected_by_degree (rt : Runtime) (self : Processor) (fs : Dir) :
  let sm := snd (scan_and_read rt self fs) in
  let links := sm_dependency_links sm in
  let listed := sm_most_connected sm in
  (length listed <= 5)%nat /\
  NoDup (map fst listed) /\
  StronglySorted (fun a b : pystr * Z => snd b <= snd a) listed /\
  (forall f c, In (f, c) listed -> c = degree f links /\ 1 <= c) /\
  (forall f, 1 <= degree f links ->
             In (f, degree f links) listed \/
             forall p, In p listed -> degree f links <= snd p).
Proof.
  cbv zeta. unfold scan_and_read. cbn [fst snd summary_of sm_dependency_links sm_most_connected].
  set (links := dep_links (meta_list (scan rt self fs))).
  destruct (conn_spec links) as (Hnd & Hget & Hpos).
  set (key := fun x : pystr * Z => inject_Z (snd x)).
  destruct (top_of_sorted_desc key (conn links) 5) as (Hp & Hlen & Hs & Hcross).
  unfold most_connected. fold key.
  set (top := firstn 5 (sorted_desc key (conn links))) in *.
  set (rest := skipn 5 (sorted_desc key (conn links))) in *.
  assert (Hentry : forall f c, In (f, c) (conn links) -> c = degree f links /\ 1 <= c).
  { intros f c Hin. rewrite <- Hget, (dict_get_In_NoDup _ f c 0 Hnd Hin).
    split; [reflexivity|]. rewrite <- (dict_get_In_NoDup _ f c 0 Hnd Hin), Hget.
    apply Hpos. apply in_map_iff. now exists (f, c). }
  split; [|split; [|split; [|split]]].
  - rewrite Hlen. lia.
  - assert (Hnd' : NoDup (map fst (top ++ rest))).
    { eapply Permutation_NoDup; [|exact Hnd]. now apply Permutation_map. }
    rewrite map_app in Hnd'. now apply NoDup_app_remove_r in Hnd'.
  - eapply StronglySorted_impl; [|exact Hs]. intros a b Hab.
    unfold key in Hab. now rewrite Zle_Qle.
  - intros f c Hin. apply Hentry.
    eapply Permutation_in; [symmetry; exact Hp|]. apply in_or_app. now left.
  - intros f Hf.
    assert (Hin : In (f, degree f links) (conn links)).
    { destruct (dict_get_cases (conn links) f 0) as [[Hnone E] | (v & _ & Hin & E)].
      - rewrite Hget in E. lia.
      - rewrite Hget in E. now subst v. }
    apply (Permutation_in _ Hp) in Hin. apply in_app_or in Hin.
    destruct Hin as [Hin | Hin]; [now left|]. right.
    intros p Hp'. specialize (Hcross p (f, degree f links) Hp' Hin).
    unfold key in Hcross. cbn [snd] in Hcross. now rewrite Zle_Qle.
Qed.

(** ** The scores of a scan *)





(** ** Excerpts *)

Lemma split_cons (c x : char) (s : pystr) :
  split c (x :: s) =
  if char_eqb x c then [] :: split c s
  else (x :: hd [] (split c s)) :: tl (split c s).
Proof.
  simpl. destruct (char_eqb x c); [reflexivity|].
  pose proof (split_not_nil c s). destruct (split c s); [congruence | reflexivity].
Qed.

Lemma split_lines_without (c : char) (s : pystr) :
  Forall (fun l => ~ In c l) (split c s).
Proof.
  induction s as [|x s IH]; [repeat constructor; intros []|].
  rewrite split_cons. destruct (char_eqb x c) eqn:E.
  - constructor; [intros [] | exact IH].
  - pose proof (split_not_nil c s). destruct (split c s) as [|h r]; [congruence|].
    inversion IH as [|? ? Hh Hr]; subst. cbn [hd tl]. constructor; [|exact Hr].
    intros [C | C]; [|contradiction]. subst. unfold char_eqb in E.
    rewrite N.eqb_refl in E. discriminate.
Qed.

Lemma split_line (c : char) (l : pystr) : ~ In c l -> split c l = [l].
Proof.
  induction l as [|x l IH]; intros H; [reflexivity|].
  rewrite split_cons. destruct (char_eqb x c) eqn:E.
  - exfalso. apply H. left. now apply char_eqb_eq in E.
  - rewrite IH; [reflexivity|]. intros C. apply H. now right.
Qed.

Lemma split_app_line (c : char) (l rest : pystr) :
  ~ In c l -> split c (l ++ c :: rest) = l :: split c rest.
Proof.
  induction l as [|x l IH]; intros H.
  - cbn [app]. rewrite split_cons. unfold char_eqb. now rewrite N.eqb_refl.
  - cbn [app]. rewrite split_cons. destruct (char_eqb x c) eqn:E.
    + exfalso. apply H. left. now apply char_eqb_eq in E.
    + rewrite IH; [reflexivity|]. intros C. apply H. now right.
Qed.

(** Splitting what was joined gives the lines back. *)
Lemma split_join (c : char) (lines : list pystr) :
  lines <> [] -> Forall (fun l => ~ In c l) lines -> split c (join [c] lines) = lines.
Proof.
  induction lines as [|l lines IH]; intros Hne Hall; [congruence|].
  inversion Hall as [|? ? Hl Hrest]; subst.
  destruct lines as [|l' lines].
  - cbn [join]. now apply split_line.
  - change (join [c] (l :: l' :: lines)) with (l ++ c :: join [c] (l' :: lines)).
    rewrite split_app_line by assumption. f_equal. apply IH; [discriminate | assumption].
Qed.

(** Joining what was split gives the text back. *)
Lemma join_split (c : char) (s : pystr) : join [c] (split c s) = s.
Proof.
  induction s as [|x s IH]; [reflexivity|].
  rewrite split_cons. destruct (char_eqb x c) eqn:E.
  - apply char_eqb_eq in E. subst x.
    pose proof (split_not_nil c s). destruct (split c s) as [|h r]; [congruence|].
    change (join [c] ([] :: h :: r)) with (c :: join [c] (h :: r)). now rewrite IH.
  - pose proof (split_not_nil c s). destruct (split c s) as [|h r]; [congruence|].
    cbn [hd tl]. destruct r as [|h' r].
    + cbn [join] in *. now rewrite IH.
    + change (join [c] ((x :: h) :: h' :: r)) with (x :: join [c] (h :: h' :: r)).
      now rewrite IH.
Qed.

Lemma Forall_firstn {A : Type} (P : A -> Prop) (n : nat) (l : list A) :
  Forall P l -> Forall P (firstn n l).
Proof.
  intros H. rewrite Forall_forall in *. intros x Hx. apply H.
  rewrite <- (firstn_skipn n l). apply in_or_app. now left.
Qed.

Lemma Forall_skipn {A : Type} (P : A -> Prop) (n : nat) (l : list A) :
  Forall P l -> Forall P (skipn n l).
Proof.
  intros H. rewrite Forall_forall in *. intros x Hx. apply H.
  rewrite <- (firstn_skipn n l). apply in_or_app. now right.
Qed.

(** X7.  The excerpt of a text of at most 200 lines is the text itself; the
    excerpt of a longer text consists of its first 120 lines, one marker
    line and its last 50 lines.  So an excerpt has at most 200 lines. *)
Theorem excerpt_lines (content : pystr) :
  let lns := split NL content in
  let shown := split NL (excerpt content lns) in
  (len lns <= 200 -> excerpt content lns = content /\ shown = lns) /\
  (200 < len lns ->
   shown = firstn 120 lns ++ [TRUNCATED] ++ last_n 50 lns /\ len shown = 171) /\
  len shown <= 200.
Proof.
  cbv zeta. set (lns := split NL content).
  assert (Hfew : len lns <= 200 -> excerpt content lns = content /\
                                   split NL (excerpt content lns) = lns).
  { intros H. unfold excerpt. apply Z.leb_le in H. rewrite H. now split. }
  assert (Hmany : 200 < len lns ->
                  split NL (excerpt content lns)
                  = firstn 120 lns ++ [TRUNCATED] ++ last_n 50 lns /\
                  len (split NL (excerpt content lns)) = 171).
  { intros H. unfold excerpt.
    replace (len lns <=? 200) with false by (symmetry; apply Z.leb_gt; exact H).
    assert (E : split NL (join [NL] (firstn 120 lns ++ [TRUNCATED] ++ last_n 50 lns))
                = firstn 120 lns ++ [TRUNCATED] ++ last_n 50 lns).
    { apply split_join.
      - intros C. apply app_eq_nil in C. destruct C as [_ C]. discriminate.
      - pose proof (split_lines_without NL content) as Hall. fold lns in Hall.
        apply Forall_app. split; [now apply Forall_firstn|].
        apply Forall_app. split; [|now apply Forall_skipn].
        constructor; [|constructor]. vm_compute. intuition discriminate. }
    rewrite E. split; [reflexivity|].
    unfold len in *. rewrite !length_app, length_firstn. unfold last_n.
    rewrite length_skipn. cbn [length]. lia. }
  split; [exact Hfew|]. split; [exact Hmany|].
  destruct (Z_le_gt_dec (len lns) 200) as [H | H].
  - destruct (Hfew H) as [_ ->]. exact H.
  - destruct (Hmany ltac:(lia)) as [_ ->]. lia.
Qed.

(** ** The payload before the final check *)

Lemma total_code_concat (sf : list (FileNodeInfo * pystr)) :
  total_code sf = len (concat (map snd sf)).
Proof.
  unfold total_code.
  assert (H : forall acc, fold_left Z.add (map (fun x => len (snd x)) sf) acc
                          = acc + len (concat (map snd sf))).
  { induction sf as [|[m p] sf IH]; intros acc; simpl.
    - change (len (@nil char)) with 0. lia.
    - rewrite IH, len_app. cbn [snd]. lia. }
  rewrite H. lia.
Qed.

(** X8.  When the excerpts of a scan all fit in what remains after the
    header, the payload is the header followed by every excerpt, whole, in
    the order of the ranking; the final check cuts nothing. *)
Theorem everything_fits_verbatim (rt : Runtime) (self : Processor) (fs : Dir) :
  total_code (ranked rt self fs) <= remaining_of rt self fs ->
  let head := payload_header rt (summary_of self (scan rt self fs)) (generate_tree self fs) in
  fst (fst (scan_and_read rt self fs)) = head ++ concat (map snd (ranked rt self fs)) /\
  len (fst (fst (scan_and_read rt self fs))) = len head + total_code (ranked rt self fs) /\
  len (fst (fst (scan_and_read rt self fs))) <= MAX_PAYLOAD_CHARS.
Proof.
  intros Hfit. cbv zeta. unfold scan_and_read, payload_of. cbn [fst].
  fold (ranked rt self fs). fold (remaining_of rt self fs).
  unfold final_parts. apply Z.leb_le in Hfit. rewrite Hfit. apply Z.leb_le in Hfit.
  set (head := payload_header _ _ _) in *.
  assert (Hlen : len (head ++ concat (map snd (ranked rt self fs)))
                 = len head + total_code (ranked rt self fs))
    by (rewrite len_app, total_code_concat; reflexivity).
  assert (Hmax : len head + total_code (ranked rt self fs) <= MAX_PAYLOAD_CHARS).
  { unfold remaining_of in Hfit. fold head in Hfit. lia. }
  destruct (clip_cases (head ++ concat (map snd (ranked rt self fs))))
    as [[_ ->] | (Hgt & _)]; [|lia].
  repeat split; [exact Hlen | lia].
Qed.

Lemma everything_fits_verbatim_witness :
  total_code (ranked Demo.rt Demo.proc Demo.fs) <= remaining_of Demo.rt Demo.proc Demo.fs /\
  len (fst (fst (scan_and_read Demo.rt Demo.proc Demo.fs))) <= MAX_PAYLOAD_CHARS.
Proof.
  assert (H : total_code (ranked Demo.rt Demo.proc Demo.fs)
              <= remaining_of Demo.rt Demo.proc Demo.fs) by (vm_compute; discriminate).
  split; [exact H|].
  exact (proj2 (proj2 (everything_fits_verbatim Demo.rt Demo.proc Demo.fs H))).
Defined.

Lemma len_TRUNCATED_PART : len TRUNCATED_PART = 19.
Proof. reflexivity. Qed.

Lemma trim_80_starts_with_newline (part : pystr) :
  hd_error part = Some NL -> hd_error (trim_80 part) = Some NL.
Proof.
  destruct part as [|x s]; [discriminate|]. intros H. injection H as ->.
  unfold trim_80. rewrite split_cons. unfold char_eqb. rewrite N.eqb_refl.
  pose proof (split_not_nil NL s) as Hs. destruct (split NL s) as [|h r]; [congruence|].
  change (firstn 80 ([] :: h :: r)) with ([] :: h :: firstn 78 r).
  change (join [NL] ([] :: h :: firstn 78 r)) with (NL :: join [NL] (h :: firstn 78 r)).
  match goal with |- context [if ?b then _ else _] => destruct b end; reflexivity.
Qed.

(** The piece of an excerpt that starts with a newline: one character when
    the budget is not positive, at most the budget and 19 characters
    otherwise. *)
Lemma emit_length (meta : FileNodeInfo) (text : pystr) (budget : Z) :
  hd_error text = Some NL ->
  emit meta text budget <> [] /\
  len (emit meta text budget) <= Z.max budget 0 + 19.
Proof.
  intros H. destruct text as [|x s]; [discriminate|]. injection H as ->.
  unfold emit. destruct (budget <=? 0) eqn:E.
  - rewrite split_cons. unfold char_eqb. rewrite N.eqb_refl. cbn [hd app].
    split; [discriminate|]. change (len [NL]) with 1. lia.
  - apply Z.leb_gt in E.
    assert (Hne : take budget (NL :: s) <> []).
    { unfold take. destruct (Z.to_nat budget) eqn:En; [lia | discriminate]. }
    pose proof (len_take_le budget (NL :: s)) as Hle.
    destruct (len (NL :: s) >? budget) eqn:Eb.
    + apply Z.gtb_lt in Eb. split.
      * intros C. apply app_eq_nil in C. tauto.
      * rewrite len_app, len_TRUNCATED_PART, len_take; lia.
    + rewrite Z.gtb_ltb in Eb. apply Z.ltb_ge in Eb. split; [assumption | lia].
Qed.

Lemma allocate_lengths (remaining : Z) (sf : list (FileNodeInfo * pystr)) :
  Forall (fun x => hd_error (snd x) = Some NL) sf ->
  forall i used,
    length (allocate remaining i used sf) = length sf /\
    Forall (fun p => p <> []) (allocate remaining i used sf) /\
    used + len (concat (allocate remaining i used sf))
    <= Z.max used remaining + 19 * len sf.
Proof.
  induction 1 as [|[meta part] sf Hhd _ IH]; intros i used; cbn [allocate].
  - change (len (@nil (FileNodeInfo * pystr))) with 0. cbn. repeat split; [constructor | lia].
  - cbn [snd] in Hhd.
    assert (Hb : hd_error (fst (rank_budget i part (remaining - used))) = Some NL /\
                 snd (rank_budget i part (remaining - used)) <= remaining - used).
    { unfold rank_budget. destruct (i <? 5); [cbn; split; [assumption | lia]|].
      destruct (i <? 15); cbn; split;
        try assumption; try lia. now apply trim_80_starts_with_newline. }
    destruct (rank_budget i part (remaining - used)) as [text budget]. cbn [fst snd] in Hb.
    destruct Hb as [Htext Hbudget].
    destruct (emit_length meta text budget Htext) as [Hne Hlen].
    destruct (IH (i + 1) (used + len (emit meta text budget))) as (H1 & H2 & H3).
    cbn [length concat]. rewrite len_app, len_cons. repeat split.
    + now rewrite H1.
    + now constructor.
    + lia.
Qed.

(** X9.  Before the final check, the budgeting loop of a scan has emitted one
    piece for each file, none empty, and the pieces together exceed what
    remained after the header by at most 19 characters - the length of one
    marker - for each file. *)
Theorem allocation_overflow_bounded (rt : Runtime) (self : Processor) (fs : Dir) :
  let sf := ranked rt self fs in
  let remaining := remaining_of rt self fs in
  let parts := allocate remaining 0 0 sf in
  length parts = length sf /\
  Forall (fun p => p <> []) parts /\
  len (concat parts) <= Z.max 0 remaining + 19 * len sf /\
  (remaining < total_code sf -> final_parts remaining sf = parts).
Proof.
  cbv zeta.
  assert (Hall : Forall (fun x => hd_error (snd x) = Some NL) (ranked rt self fs)).
  { apply Forall_forall. intros [meta part] Hin.
    now apply ranked_parts_start_with_newline in Hin. }
  destruct (allocate_lengths (remaining_of rt self fs) _ Hall 0 0) as (H1 & H2 & H3).
  repeat split; try assumption.
  intros Hlt. unfold final_parts.
  replace (total_code (ranked rt self fs) <=? remaining_of rt self fs) with false;
    [reflexivity|]. symmetry. apply Z.leb_gt. exact Hlt.
Qed.

(** ** Resolving an import *)

Lemma startswith_spec (p s : pystr) :
  startswith p s = true <-> exists t, s = p ++ t.
Proof.
  revert s. induction p as [|x p IH]; intros s; simpl.
  - split; [intros _; now exists s | reflexivity].
  - destruct s as [|y s].
    + split; [discriminate | intros [t H]; discriminate].
    + rewrite andb_true_iff, char_eqb_eq, IH. split.
      * intros [-> [t ->]]. now exists t.
      * intros [t H]. injection H as -> ->. split; [reflexivity | now exists t].
Qed.

Lemma contains_spec (sub s : pystr) :
  contains sub s = true <-> exists a b, s = a ++ sub ++ b.
Proof.
  induction s as [|y s IH]; simpl.
  - rewrite orb_false_r, startswith_spec. split.
    + intros [t H]. now exists [], t.
    + intros (a & b & H). destruct a as [|z a]; [now exists b | discriminate].
  - rewrite orb_true_iff, startswith_spec, IH. split.
    + intros [[t H] | (a & b & H)].
      * now exists [], t.
      * exists (y :: a), b. now rewrite H.
    + intros (a & b & H). destruct a as [|z a].
      * left. now exists b.
      * right. injection H as -> ->. now exists a, b.
Qed.

(** [f.endswith(c)] is one way of [c in f]. *)
Lemma endswith_contains (c f : pystr) : endswith c f = true -> contains c f = true.
Proof.
  unfold endswith. rewrite startswith_spec, contains_spec. intros [t H].
  exists (rev t), []. rewrite app_nil_r.
  rewrite <- (rev_involutive f), H, rev_app_distr, rev_involutive. reflexivity.
Qed.

Lemma match_is_contains (c f : pystr) : endswith c f || contains c f = contains c f.
Proof.
  destruct (endswith c f) eqn:E; [|reflexivity].
  simpl. symmetry. now apply endswith_contains.
Qed.

Lemma find_contains (c : pystr) (all_files : list pystr) :
  find (fun f => endswith c f || contains c f) all_files = find (contains c) all_files.
Proof.
  induction all_files as [|f rest IH]; simpl; [reflexivity|].
  rewrite match_is_contains, IH. reflexivity.
Qed.

Lemma find_none_iff {A : Type} (p : A -> bool) (l : list A) :
  find p l = None <-> forall x, In x l -> p x = false.
Proof.
  split; [apply find_none|].
  induction l as [|x l IH]; simpl; [reflexivity|]. intros H.
  rewrite (H x (or_introl eq_refl)). apply IH. intros y Hy. apply H. now right.
Qed.

Lemma first_match_Some (candidates all_files : list pystr) (f : pystr) :
  first_match candidates all_files = Some f <->
  exists before c after,
    candidates = before ++ c :: after /\
    (forall c' f', In c' before -> In f' all_files -> contains c' f' = false) /\
    find (contains c) all_files = Some f.
Proof.
  induction candidates as [|c rest IH]; simpl.
  - split; [discriminate|]. intros (b & c & a & H & _). destruct b; discriminate.
  - rewrite find_contains. destruct (find (contains c) all_files) as [g|] eqn:E.
    + split.
      * intros H. injection H as <-. exists [], c, rest. repeat split; [|assumption].
        intros c' f' [].
      * intros (b & c0 & a & H & Hb & Hf). destruct b as [|c1 b].
        -- injection H as <- <-. congruence.
        -- injection H as <- ->. apply find_some in E. destruct E as [Hin Hc].
           rewrite (Hb c g (or_introl eq_refl) Hin) in Hc. discriminate.
    + rewrite IH. split.
      * intros (b & c0 & a & -> & Hb & Hf). exists (c :: b), c0, a.
        repeat split; [|assumption].
        intros c' f' [<- | Hc'] Hf'; [|now apply Hb].
        now apply (proj1 (find_none_iff _ _) E).
      * intros (b & c0 & a & H & Hb & Hf). destruct b as [|c1 b].
        -- injection H as <- <-. congruence.
        -- injection H as <- ->. exists b, c0, a. repeat split; [|assumption].
           intros c' f' Hc'. apply Hb. now right.
Qed.

Lemma first_match_None (candidates all_files : list pystr) :
  first_match candidates all_files = None <->
  forall c f, In c candidates -> In f all_files -> contains c f = false.
Proof.
  induction candidates as [|c rest IH]; simpl.
  - split; [intros _ c f [] | reflexivity].
  - rewrite find_contains. destruct (find (contains c) all_files) as [g|] eqn:E.
    + split; [discriminate|]. intros H. apply find_some in E. destruct E as [Hin Hc].
      rewrite (H c g (or_introl eq_refl) Hin) in Hc. discriminate.
    + rewrite IH. split.
      * intros H c' f [<- | Hc'] Hf; [|now apply H].
        now apply (proj1 (find_none_iff _ _) E).
      * intros H c' f Hc'. apply H. now right.
Qed.

Lemma replace_char_same (c : char) (s : pystr) : replace_char c [c] s = s.
Proof.
  unfold replace_char. induction s as [|x s IH]; simpl; [reflexivity|].
  destruct (char_eqb x c) eqn:E.
  - apply char_eqb_eq in E. subst. simpl. now rewrite IH.
  - simpl. now rewrite IH.
Qed.

(** X10.  An import is resolved by substring.  The result is the first key, in
    the order of the keys, that contains the first candidate found anywhere
    inside some key; the test [endswith] adds nothing to [in].  Nothing is
    found exactly when no candidate occurs in any key, so an import whose own
    text occurs in a key is always resolved, and the empty import to the
    first key. *)
Theorem resolve_import_by_substring (imp : pystr) (all_files : list pystr) :
  (forall f, _resolve_import imp all_files = Some f <->
     exists before c after,
       import_candidates imp = before ++ c :: after /\
       (forall c' f', In c' before -> In f' all_files -> contains c' f' = false) /\
       find (contains c) all_files = Some f) /\
  (_resolve_import imp all_files = None <->
     forall c f, In c (import_candidates imp) -> In f all_files -> contains c f = false) /\
  (forall f, In f all_files -> contains imp f = true ->
     _resolve_import imp all_files <> None) /\
  (imp = [] -> _resolve_import imp all_files = hd_error all_files).
Proof.
  unfold _resolve_import. split; [|split; [|split]].
  - intros f. apply first_match_Some.
  - apply first_match_None.
  - intros f Hin Hc Hnone. rewrite first_match_None in Hnone.
    assert (Hcand : In imp (import_candidates imp)).
    { unfold import_candidates, os_sep. rewrite replace_char_same. simpl. tauto. }
    rewrite (Hnone imp f Hcand Hin) in Hc. discriminate.
  - intros ->. destruct all_files as [|f rest]; reflexivity.
Qed.

(** ** The API key *)

Lemma lstrip_cases (s : pystr) :
  lstrip s = [] \/ exists x r, lstrip s = x :: r /\ is_space x = false.
Proof.
  induction s as [|x s IH]; simpl; [now left|].
  destruct (is_space x) eqn:E; [exact IH|]. right. now exists x, s.
Qed.

Lemma lstrip_suffix (s : pystr) : exists a, s = a ++ lstrip s /\ forallb is_space a = true.
Proof.
  induction s as [|x s IH]; simpl; [now exists []|].
  destruct (is_space x) eqn:E.
  - destruct IH as (a & H & Ha). exists (x :: a). simpl. rewrite E, Ha. split; [|reflexivity].
    now rewrite <- H.
  - now exists [].
Qed.

Lemma lstrip_fixed (x : char) (r : pystr) : is_space x = false -> lstrip (x :: r) = x :: r.
Proof. intros H. simpl. now rewrite H. Qed.

(** [s.strip()] is empty, or starts and ends with a character that is not
    white space. *)
Lemma strip_cases (s : pystr) :
  strip s = [] \/
  exists x m y, (strip s = [x] /\ x = y /\ m = [] \/ strip s = x :: m ++ [y]) /\
                is_space x = false /\ is_space y = false.
Proof.
  unfold strip.
  destruct (lstrip_cases s) as [-> | (x & r & Hs & Hx)]; [now left|]. rewrite Hs.
  destruct (lstrip_cases (rev (x :: r))) as [-> | (y & t & Ht & Hy)]; [now left|].
  right. rewrite Ht.
  destruct (lstrip_suffix (rev (x :: r))) as (a & Ha & _). rewrite Ht in Ha.
  apply (f_equal (@rev char)) in Ha. rewrite rev_involutive, rev_app_distr in Ha.
  simpl rev in *. destruct (rev t) as [|z u] eqn:Eu; simpl in *.
  - exists y, [], y. injection Ha as -> _. repeat split; try assumption. now left.
  - injection Ha as -> _. exists z, u, y. repeat split; try assumption. now right.
Qed.

Lemma strip_fixed (x y : char) (m : pystr) :
  is_space x = false -> is_space y = false ->
  strip [x] = [x] /\ strip (x :: m ++ [y]) = x :: m ++ [y].
Proof.
  intros Hx Hy. unfold strip. split.
  - simpl. rewrite Hx. simpl. now rewrite Hx.
  - rewrite (lstrip_fixed x _ Hx).
    assert (E : rev (x :: m ++ [y]) = y :: rev (x :: m)).
    { change (x :: m ++ [y]) with ((x :: m) ++ [y]). now rewrite rev_app_distr. }
    rewrite E, (lstrip_fixed y _ Hy), <- E. apply rev_involutive.
Qed.

Lemma strip_idempotent (s : pystr) : strip (strip s) = strip s.
Proof.
  destruct (strip_cases s) as [-> | (x & m & y & [(-> & _ & _) | ->] & Hx & Hy)].
  - reflexivity.
  - apply (strip_fixed x x [] Hx Hx).
  - apply (strip_fixed x y m Hx Hy).
Qed.

Lemma lstrip_nil (s : pystr) : lstrip s = [] <-> forallb is_space s = true.
Proof.
  induction s as [|x s IH]; simpl; [tauto|].
  destruct (is_space x); simpl; [exact IH|]. split; discriminate.
Qed.

(** [s.strip()] is empty exactly when [s] is white space only. *)
Lemma strip_nil (s : pystr) : strip s = [] <-> forallb is_space s = true.
Proof.
  unfold strip. split.
  - intros H. apply (f_equal (@rev char)) in H. rewrite rev_involutive in H. simpl in H.
    apply lstrip_nil in H. rewrite forallb_forall in H.
    destruct (lstrip_suffix s) as (a & Ha & Hsp). rewrite Ha, forallb_app, Hsp. simpl.
    apply forallb_forall. intros c Hc. apply H. now apply -> in_rev.
  - intros H. apply lstrip_nil in H. rewrite H. reflexivity.
Qed.

(** X11.  The key that [get_key] returns is never empty and has no white
    space at either end.  The key of the request is used, stripped, unless it
    is missing or blank; then the environment's is.  [get_key] raises exactly
    when both are blank, that is when the request brings no key and
    [has_key] is false. *)
Theorem get_key_normalised (h : Host) (request_key : option pystr) :
  (forall k, get_key h request_key = Some k ->
     k <> [] /\ strip k = k /\ hd_error (lstrip k) = hd_error k) /\
  (forall r, request_key = Some r -> ~ blank r -> get_key h request_key = Some (strip r)) /\
  ((request_key = None \/ exists r, request_key = Some r /\ blank r) ->
   ~ blank (env_key h) -> get_key h request_key = Some (strip (env_key h))) /\
  (get_key h request_key = None <->
   has_key h = false /\ forall r, request_key = Some r -> blank r).
Proof.
  unfold blank.
  assert (Hnorm : forall s k, strip s = k -> k <> [] ->
                    strip k = k /\ hd_error (lstrip k) = hd_error k).
  { intros s k <- Hne. split; [apply strip_idempotent|].
    destruct (strip_cases s) as [E | (x & m & y & [(E & _ & _) | E] & Hx & _)];
      [contradiction | |]; rewrite E; simpl; now rewrite Hx. }
  split; [|split; [|split]].
  - intros k. unfold get_key.
    destruct request_key as [r|].
    + destruct (strip r) as [|x u] eqn:Er.
      * destruct (strip (env_key h)) as [|y v] eqn:Ee; [discriminate|].
        intros H. injection H as <-.
        split; [discriminate | now apply (Hnorm (env_key h))].
      * intros H. injection H as <-.
        split; [discriminate | now apply (Hnorm r)].
    + destruct (strip (env_key h)) as [|y v] eqn:Ee; [discriminate|].
      intros H. injection H as <-.
      split; [discriminate | now apply (Hnorm (env_key h))].
  - intros r -> Hr. unfold get_key. rewrite <- strip_nil in Hr.
    destruct (strip r); [contradiction | reflexivity].
  - intros Hreq He. rewrite <- strip_nil in He. unfold get_key.
    destruct Hreq as [-> | (r & -> & Hr)].
    + destruct (strip (env_key h)); [contradiction | reflexivity].
    + apply strip_nil in Hr. rewrite Hr.
      destruct (strip (env_key h)); [contradiction | reflexivity].
  - unfold get_key, has_key. split.
    + destruct request_key as [r|].
      * destruct (strip r) as [|x u] eqn:Er; [|discriminate].
        destruct (strip (env_key h)); [|discriminate].
        intros _. split; [reflexivity|]. intros r' H. injection H as <-. now apply strip_nil.
      * destruct (strip (env_key h)); [|discriminate].
        intros _. split; [reflexivity|]. intros r' H. discriminate.
    + intros [He Hr]. destruct (strip (env_key h)) as [|y v]; [|discriminate].
      destruct request_key as [r|]; [|reflexivity].
      rewrite (proj2 (strip_nil r) (Hr r eq_refl)). reflexivity.
Qed.

(** ** The Mermaid export *)

Lemma assoc_dict_set {V : Type} (k k' : pystr) (v : V) (d : list (pystr * V)) :
  assoc k (dict_set k' v d) = if str_eqb k k' then Some v else assoc k d.
Proof.
  induction d as [|[k2 v2] d IH]; simpl; [reflexivity|].
  destruct (str_eqb k' k2) eqn:E.
  - apply str_eqb_eq in E. subst k2. simpl. destruct (str_eqb k k'); reflexivity.
  - simpl. rewrite IH. destruct (str_eqb k k2) eqn:E2; [|reflexivity].
    apply str_eqb_eq in E2. subst k2.
    destruct (str_eqb k k') eqn:E3; [|reflexivity].
    apply str_eqb_eq in E3. subst k'. rewrite str_eqb_refl in E. discriminate.
Qed.

Lemma node_id_not_nil (i : Z) : exists x s, node_id i = x :: s.
Proof. unfold node_id. now exists 78%N, (str_of_Z i). Qed.

(** The first loop of [mermaid] from position [n] on: one line for each
    record, and an id for the relative path of each. *)
Lemma mermaid_nodes_from (l : list FileNodeInfo) :
  forall n ids0 lines0,
    exists ids,
      fold_left
        (fun (st : list (pystr * pystr) * list pystr) (p : Z * FileNodeInfo) =>
           let (ids, lines) := st in
           let (i, f) := p in
           (dict_set (relative_path f) (node_id i) ids,
            lines ++ [py "    " ++ node_id i ++ py "[" ++ [DQUOTE] ++ relative_path f
                      ++ [DQUOTE] ++ py "]"]))
        (enumerate n l) (ids0, lines0)
      = (ids, lines0 ++ map node_line (enumerate n l)) /\
      (forall k v, assoc k ids = Some v ->
         assoc k ids0 = Some v \/
         exists i f, In (i, f) (enumerate n l) /\ relative_path f = k /\ v = node_id i) /\
      (forall k, assoc k ids0 <> None \/ In k (map relative_path l) -> assoc k ids <> None).
Proof.
  induction l as [|f l IH]; intros n ids0 lines0; cbn [enumerate fold_left map].
  - exists ids0. rewrite app_nil_r. repeat split; [tauto|]. intros k [H | []]. exact H.
  - destruct (IH (n + 1) (dict_set (relative_path f) (node_id n) ids0)
                (lines0 ++ [py "    " ++ node_id n ++ py "[" ++ [DQUOTE] ++ relative_path f
                            ++ [DQUOTE] ++ py "]"])) as (ids & Hfold & Hget & Hin).
    exists ids. split; [|split].
    + rewrite Hfold, <- app_assoc. reflexivity.
    + intros k v Hk. destruct (Hget k v Hk) as [H | (i & g & Hi & Hg & Hv)].
      * rewrite assoc_dict_set in H. destruct (str_eqb k (relative_path f)) eqn:E.
        -- apply str_eqb_eq in E. injection H as <-. right. exists n, f.
           repeat split; [now left | now symmetry].
        -- now left.
      * right. exists i, g. repeat split; try assumption. now right.
    + intros k Hk. apply Hin. rewrite assoc_dict_set.
      destruct (str_eqb k (relative_path f)) eqn:E; [left; discriminate|].
      apply str_eqb_neq in E. destruct Hk as [Hk | [Hk | Hk]].
      * now left.
      * congruence.
      * now right.
Qed.

Lemma dep_links_ends (ms : list FileNodeInfo) (l : DepLink) :
  In l (dep_links ms) ->
  In (source l) (map relative_path ms) /\ In (target l) (map relative_path ms).
Proof.
  unfold dep_links. intros H. apply in_flat_map in H. destruct H as (m & Hm & H).
  unfold links_of in H. apply in_flat_map in H. destruct H as (imp & _ & H).
  apply link_of_In in H. destruct H as (Hs & _ & _ & _ & Ht). split.
  - rewrite Hs. now apply in_map.
  - now apply dict_keys_In in Ht.
Qed.

(** X12.  The Mermaid text of a scan: the line [graph TD], then one node line
    for each record, in order, numbered from 0, then one edge line for each
    dependency link, in order.  The edge of a link joins the ids of two
    records whose relative paths are the link's source and target; no link is
    dropped. *)
Theorem mermaid_graph (rt : Runtime) (self : Processor) (fs : Dir) :
  let files := snd (fst (scan_and_read rt self fs)) in
  let links := sm_dependency_links (snd (scan_and_read rt self fs)) in
  exists edges,
    mermaid_lines files links
      = py "graph TD" :: map node_line (enumerate 0 files) ++ edges /\
    Forall2 (fun link line =>
               exists i j fi fj,
                 In (i, fi) (enumerate 0 files) /\ relative_path fi = source link /\
                 In (j, fj) (enumerate 0 files) /\ relative_path fj = target link /\
                 line = edge_line i j)
            links edges.
Proof.
  cbv zeta. unfold scan_and_read. cbn [fst snd]. unfold summary_of. cbn [sm_dependency_links].
  set (files := meta_list (scan rt self fs)).
  unfold mermaid_lines, mermaid_nodes.
  destruct (mermaid_nodes_from files 0 [] [py "graph TD"]) as (ids & -> & Hget & Hin).
  exists (flat_map (mermaid_edge ids) (dep_links files)). split; [reflexivity|].
  assert (Hends : Forall (fun l => In (source l) (map relative_path files) /\
                                   In (target l) (map relative_path files))
                         (dep_links files)).
  { apply Forall_forall. intros l. apply dep_links_ends. }
  induction Hends as [|link links [Hs Ht] _ IH]; [constructor|].
  cbn [flat_map].
  assert (Hid : forall k, In k (map relative_path files) ->
                  exists i f, assoc k ids = Some (node_id i) /\
                              In (i, f) (enumerate 0 files) /\ relative_path f = k).
  { intros k Hk. destruct (assoc k ids) as [v|] eqn:E.
    - destruct (Hget k v E) as [H | (i & f & Hi & Hf & ->)]; [discriminate|].
      now exists i, f.
    - exfalso. apply (Hin k); [now right | assumption]. }
  destruct (Hid _ Hs) as (i & fi & Ei & Hi & Hfi).
  destruct (Hid _ Ht) as (j & fj & Ej & Hj & Hfj).
  unfold mermaid_edge at 1. rewrite Ei, Ej.
  destruct (node_id_not_nil i) as (x & s & Exi).
  destruct (node_id_not_nil j) as (y & t & Eyj).
  rewrite Exi, Eyj. cbn [app]. constructor; [|exact IH].
  exists i, j, fi, fj. unfold edge_line. rewrite Exi, Eyj. auto.
Qed.

(** ** The events of a stream *)

Lemma chunk_events_shape (event_type : pystr) (c : option Delta) :
  Forall (fun e => terminal e = false /\
                   match e with
                   | Thought t => t <> []
                   | Content ty t => ty = event_type /\ t <> []
                   | _ => False
                   end) (chunk_events event_type c) /\
  concat (map content_text (chunk_events event_type c)) = chunk_content c /\
  concat (map thought_text (chunk_events event_type c)) = chunk_reasoning c /\
  (length (chunk_events event_type c) <= 2)%nat.
Proof.
  destruct c as [[r c]|]; [|cbn; repeat split; [constructor | lia]].
  unfold chunk_events, chunk_content, chunk_reasoning. cbn [reasoning_content content].
  destruct r as [[|x r]|], c as [[|y c]|]; cbn;
    rewrite ?app_nil_r; repeat split;
    repeat constructor; try discriminate; try reflexivity; try lia.
Qed.

(** X13.  The events of one call of the model end with exactly one terminal
    event: [done] when the client did not fail, [error] when it did.  Before
    it come only thoughts and content events of the requested type, none with
    an empty text, at most two for each chunk; put together, the content
    events give the content of the chunks, and the thoughts their reasoning.
    Each event is sent as one [data:] line. *)
Theorem stream_ends_once (dumps : Event -> pystr) (reply : ModelStream) (event_type : pystr) :
  exists body last,
    stream_events reply event_type = body ++ [last] /\
    last = match failure reply with Some e => Failed e | None => Done end /\
    Forall (fun e => terminal e = false /\
                     match e with
                     | Thought t => t <> []
                     | Content ty t => ty = event_type /\ t <> []
                     | _ => False
                     end) body /\
    concat (map content_text body) = concat (map chunk_content (chunks reply)) /\
    concat (map thought_text body) = concat (map chunk_reasoning (chunks reply)) /\
    (length body <= 2 * length (chunks reply))%nat /\
    _stream_generic dumps reply event_type
      = map (fun e => py "data: " ++ dumps e ++ [NL; NL]) body
        ++ [py "data: " ++ dumps last ++ [NL; NL]].
Proof.
  unfold _stream_generic, stream_events.
  exists (flat_map (chunk_events event_type) (chunks reply)).
  eexists. split; [reflexivity|]. split; [reflexivity|].
  assert (H : forall cs,
             Forall (fun e => terminal e = false /\
                              match e with
                              | Thought t => t <> []
                              | Content ty t => ty = event_type /\ t <> []
                              | _ => False
                              end) (flat_map (chunk_events event_type) cs) /\
             concat (map content_text (flat_map (chunk_events event_type) cs))
               = concat (map chunk_content cs) /\
             concat (map thought_text (flat_map (chunk_events event_type) cs))
               = concat (map chunk_reasoning cs) /\
             (length (flat_map (chunk_events event_type) cs) <= 2 * length cs)%nat).
  { induction cs as [|c cs (IH1 & IH2 & IH3 & IH4)]; [cbn; repeat split; [constructor | lia]|].
    destruct (chunk_events_shape event_type c) as (H1 & H2 & H3 & H4).
    cbn [flat_map map concat length].
    rewrite !map_app, !concat_app, length_app, H2, H3, IH2, IH3.
    repeat split; [now apply Forall_app | lia]. }
  destruct (H (chunks reply)) as (H1 & H2 & H3 & H4).
  repeat split; try assumption.
  rewrite map_app. reflexivity.
Qed.

(** ** The endpoints that call the model *)

Lemma scanned_payload_length (rt : Runtime) (self : Processor) (fs : Dir) :
  len (fst (fst (scan_and_read rt self fs))) <= MAX_PAYLOAD_CHARS + 49.
Proof.
  unfold scan_and_read, payload_of. cbn [fst].
  match goal with |- len (clip ?p) <= _ => destruct (clip_cases p) as [[H ->] | (_ & _ & ->)] end;
    lia.
Qed.

Lemma audit_endpoint_guard
    (metadata_of : list FileNodeInfo -> Summary -> Metadata)
    (stream : pystr -> ModelCall) (prefix : pystr)
    (rt : Runtime) (h : Host) (req : AnalyzeRequest) :
  (forall p, user (stream p) = prefix ++ p) ->
  match audit_endpoint metadata_of stream rt h req with
  | Streamed md call =>
      get_key h (nvidia_api_key req) <> None /\
      exists abs_path fs,
        resolve h (directory_path req) = LocalDir abs_path fs /\
        let r := scan_and_read rt (processor_of abs_path req) fs in
        snd (fst r) <> [] /\
        md = Some (metadata_of (snd (fst r)) (snd r)) /\
        call = stream (fst (fst r)) /\
        len (user call) <= len prefix + MAX_PAYLOAD_CHARS + 49
  | Raised code detail =>
      get_key h (nvidia_api_key req) = None /\ code = 400 /\ detail = NO_KEY \/
      get_key h (nvidia_api_key req) <> None /\
      (resolve h (directory_path req) = ResolveError code detail \/
       code = 400 /\ detail = NO_FILES /\
       exists abs_path fs,
         resolve h (directory_path req) = LocalDir abs_path fs /\
         snd (fst (scan_and_read rt (processor_of abs_path req) fs)) = [])
  end.
Proof.
  intros Hstream. unfold audit_endpoint.
  destruct (get_key h (nvidia_api_key req)) as [k|]; [|left; auto].
  destruct (resolve h (directory_path req)) as [code detail | abs_path fs].
  - right. split; [discriminate | now left].
  - pose proof (scanned_payload_length rt (processor_of abs_path req) fs) as Hlen.
    destruct (scan_and_read rt (processor_of abs_path req) fs)
      as [[payload files] summary] eqn:E.
    cbn [fst snd] in *. destruct files as [|f files].
    + right. split; [discriminate|]. right. repeat split.
      exists abs_path, fs. now rewrite E.
    + split; [discriminate|]. exists abs_path, fs. cbv zeta. rewrite E. cbn [fst snd].
      repeat split; [discriminate|]. rewrite Hstream, len_app. lia.
Qed.

(** X14.  [security_scan], [onboarding_guide] and [cuda_analysis] call the
    model only with a key, a resolved directory and at least one scanned
    record; the prompt is then a fixed line and the payload, so at most
    300,049 characters after the prefix.  The key is looked at first: without
    one the answer is the error 400 for the key, whatever the path; a path
    that resolves to no record gives the error 400 [No source files found.] *)
Theorem audits_guarded (rt : Runtime) (h : Host) (req : AnalyzeRequest) :
  let guarded (reply : Reply) (prefix : pystr) (sys : system_prompt) :=
    match reply with
    | Streamed md call =>
        get_key h (nvidia_api_key req) <> None /\
        exists abs_path fs,
          resolve h (directory_path req) = LocalDir abs_path fs /\
          let r := scan_and_read rt (processor_of abs_path req) fs in
          snd (fst r) <> [] /\
          option_map md_total_files md = Some (len (snd (fst r))) /\
          system call = sys /\
          user call = prefix ++ fst (fst r) /\
          len (user call) <= len prefix + 300049
    | Raised code detail =>
        get_key h (nvidia_api_key req) = None /\ code = 400 /\ detail = NO_KEY \/
        get_key h (nvidia_api_key req) <> None /\
        (resolve h (directory_path req) = ResolveError code detail \/
         code = 400 /\ detail = NO_FILES /\
         exists abs_path fs,
           resolve h (directory_path req) = LocalDir abs_path fs /\
           snd (fst (scan_and_read rt (processor_of abs_path req) fs)) = [])
    end in
  guarded (security_scan rt h req) (py "Audit this codebase:" ++ [NL; NL]) SYS_SECURITY /\
  guarded (onboarding_guide rt h req) (py "Create onboarding guide:" ++ [NL; NL]) SYS_ONBOARDING /\
  guarded (cuda_analysis rt h req) (py "Analyze GPU/CUDA usage:" ++ [NL; NL]) SYS_CUDA.
Proof.
  cbv zeta. unfold security_scan, onboarding_guide, cuda_analysis.
  split; [|split].
  - pose proof (audit_endpoint_guard short_metadata stream_security
                  (py "Audit this codebase:" ++ [NL; NL]) rt h req (fun p => eq_refl)) as H.
    destruct (audit_endpoint short_metadata stream_security rt h req) as [code detail | md call];
      [exact H|].
    destruct H as (Hk & abs_path & fs & Hr & Hf & -> & -> & Hlen).
    split; [assumption|]. exists abs_path, fs. unfold MAX_PAYLOAD_CHARS in Hlen.
    repeat split; try assumption; try lia.
  - pose proof (audit_endpoint_guard short_metadata stream_onboarding
                  (py "Create onboarding guide:" ++ [NL; NL]) rt h req (fun p => eq_refl)) as H.
    destruct (audit_endpoint short_metadata stream_onboarding rt h req) as [code detail | md call];
      [exact H|].
    destruct H as (Hk & abs_path & fs & Hr & Hf & -> & -> & Hlen).
    split; [assumption|]. exists abs_path, fs. unfold MAX_PAYLOAD_CHARS in Hlen.
    repeat split; try assumption; try lia.
  - match goal with |- context [audit_endpoint ?m stream_cuda] =>
      pose proof (audit_endpoint_guard m stream_cuda
                    (py "Analyze GPU/CUDA usage:" ++ [NL; NL]) rt h req (fun p => eq_refl)) as H;
      destruct (audit_endpoint m stream_cuda rt h req) as [code detail | md call];
        [exact H|]
    end.
    destruct H as (Hk & abs_path & fs & Hr & Hf & -> & -> & Hlen).
    split; [assumption|]. exists abs_path, fs. unfold MAX_PAYLOAD_CHARS in Hlen.
    repeat split; try assumption; try lia.
Qed.

(** X15.  [query] calls the model only with a key, a resolved directory and
    at least one scanned record.  It scans with the limit of the request and
    the defaults for the rest (tests left out, depth 6), sends no metadata,
    and asks with the payload between [CODEBASE:] and the question, as events
    of type [answer]. *)
Theorem query_guarded (rt : Runtime) (h : Host) (req : QueryRequest) :
  match query rt h req with
  | Streamed md call =>
      get_key h (q_nvidia_api_key req) <> None /\
      exists abs_path fs,
        resolve h (q_directory_path req) = LocalDir abs_path fs /\
        let r := scan_and_read rt {| root := abs_path; max_files := q_max_files req;
                                    include_tests := false; depth := 6 |} fs in
        snd (fst r) <> [] /\
        md = None /\
        system call = SYS_QUERY /\ call_event_type call = py "answer" /\
        user call = py "CODEBASE:" ++ [NL] ++ fst (fst r) ++ [NL; NL] ++ py "Q: "
                    ++ question req /\
        len (user call) <= 300049 + 15 + len (question req)
  | Raised code detail =>
      get_key h (q_nvidia_api_key req) = None /\ code = 400 /\ detail = NO_KEY \/
      get_key h (q_nvidia_api_key req) <> None /\
      (resolve h (q_directory_path req) = ResolveError code detail \/
       code = 400 /\ detail = NO_FILES /\
       exists abs_path fs,
         resolve h (q_directory_path req) = LocalDir abs_path fs /\
         snd (fst (scan_and_read rt {| root := abs_path; max_files := q_max_files req;
                                       include_tests := false; depth := 6 |} fs)) = [])
  end.
Proof.
  unfold query.
  destruct (get_key h (q_nvidia_api_key req)) as [k|]; [|left; auto].
  destruct (resolve h (q_directory_path req)) as [code detail | abs_path fs].
  - right. split; [discriminate | now left].
  - set (proc := {| root := abs_path |}).
    pose proof (scanned_payload_length rt proc fs) as Hlen.
    destruct (scan_and_read rt proc fs) as [[payload files] summary] eqn:E.
    cbn [fst snd] in *. destruct files as [|f files].
    + right. split; [discriminate|]. right. repeat split.
      exists abs_path, fs. fold proc. now rewrite E.
    + split; [discriminate|]. exists abs_path, fs. cbv zeta. fold proc. rewrite E.
      cbn [fst snd]. unfold stream_query. cbn [system user call_event_type].
      repeat split; [discriminate|].
      rewrite !len_app. change (len (py "CODEBASE:")) with 9. change (len [NL]) with 1.
      change (len [NL; NL]) with 2. change (len (py "Q: ")) with 3.
      unfold MAX_PAYLOAD_CHARS in Hlen. lia.
Qed.

(** ** The tree *)




(** ** Files of equal importance *)

Lemma insert_desc_stable {A : Type} (key : A -> Q) (q : Q) (x : A) (l : list A) :
  filter (fun a => Qeq_bool (key a) q) (insert_by (fun y x => Qltb (key x) (key y)) x l)
  = filter (fun a => Qeq_bool (key a) q) (x :: l).
Proof.
  induction l as [|y l IH]; [reflexivity|].
  cbn [insert_by]. destruct (Qltb (key x) (key y)) eqn:E; [|reflexivity].
  apply Qltb_lt in E. cbn [filter] in *. rewrite IH.
  destruct (Qeq_bool (key x) q) eqn:Ex; [|reflexivity].
  destruct (Qeq_bool (key y) q) eqn:Ey; [|reflexivity].
  apply Qeq_bool_iff in Ex, Ey. rewrite Ex, Ey in E. now apply Qlt_irrefl in E.
Qed.

Lemma sorted_desc_stable {A : Type} (key : A -> Q) (q : Q) (l : list A) :
  filter (fun a => Qeq_bool (key a) q) (sorted_desc key l)
  = filter (fun a => Qeq_bool (key a) q) l.
Proof.
  unfold sorted_desc, sort_by. induction l as [|x l IH]; [reflexivity|].
  cbn [fold_right]. rewrite insert_desc_stable. cbn [filter]. now rewrite IH.
Qed.

(** X17.  The ranking is stable: the files of one importance stand in the
    ranking in the order in which the scan met them, and the hotspots of one
    complexity in the order of the records. *)
Theorem ties_keep_scan_order (rt : Runtime) (self : Processor) (fs : Dir) (q : Q) :
  let st := scan rt self fs in
  filter (fun x => Qeq_bool (importance rt x) q) (ranked rt self fs)
  = filter (fun x => Qeq_bool (importance rt x) q) (combine (meta_list st) (code_parts st)) /\
  filter (fun m => Qeq_bool (complexity_score m) q) (sorted_desc complexity_score (meta_list st))
  = filter (fun m => Qeq_bool (complexity_score m) q) (meta_list st).
Proof.
  cbv zeta. unfold ranked, sorted_files. split; apply sorted_desc_stable.
Qed.

(** ** How the score moves with its counts *)






